(** * github-notification-manager: a shallow embedding of [main.go]

    The program fetches the unread notifications of one repository page by
    page, orders them by their last update, and walks through them: a
    notification whose title marks a dependency upgrade is marked as read at
    once, every other one is shown and marked as read when the user answers
    yes.

    Strings are Go strings, that is byte sequences: [string] of the Standard
    Library.  Pointers of the go-github client are [option]s and the getters
    are the nil-safe getters of that client.  The remote API, the terminal
    and the clock are an explicit environment; every interaction is recorded
    in a trace. *)

From Stdlib Require Import String Ascii List ZArith Lia Bool Arith.
From Stdlib Require Import Sorted Permutation.
Import ListNotations.

Local Open Scope list_scope.
Local Open Scope string_scope.

(** ** The Go [strings] package, as far as [main.go] uses it *)

Module Strings.

(** [strings.HasPrefix(s, prefix)]. *)
Definition HasPrefix (s prefix : string) : bool := String.prefix prefix s.

(** [strings.TrimPrefix(s, prefix)]: [s] without the leading [prefix], or
    [s] itself when it does not start with [prefix]. *)
Definition TrimPrefix (s prefix : string) : string :=
  if HasPrefix s prefix
  then substring (String.length prefix) (String.length s - String.length prefix) s
  else s.

(** [strings.Split(s, sep)] for a separator of one byte: the substrings
    between the separators, one more than there are separators. *)
Fixpoint SplitByte (sep : ascii) (s : string) : list string :=
  match s with
  | EmptyString => [EmptyString]
  | String c r =>
      if Ascii.eqb c sep then EmptyString :: SplitByte sep r
      else match SplitByte sep r with
           | h :: t => String c h :: t
           | [] => [String c EmptyString]
           end
  end.

Definition slash : ascii := "/"%char.

Definition Split_slash (s : string) : list string := SplitByte slash s.

(** [strings.Join(parts, sep)]; not called by the program, it states the
    shape of the URLs the translator receives. *)
Fixpoint Join (parts : list string) (sep : string) : string :=
  match parts with
  | [] => EmptyString
  | [p] => p
  | p :: rest => p ++ sep ++ Join rest sep
  end.

(** [utf8.RuneSelf]: bytes below it are the ASCII characters. *)
Definition RuneSelf : nat := 128.

Definition isASCIIByte (c : ascii) : bool := Nat.ltb (nat_of_ascii c) RuneSelf.

(** The table [asciiSpace] of the package: tab, line feed, vertical tab,
    form feed, carriage return and space. *)
Definition asciiSpace (c : ascii) : bool :=
  match nat_of_ascii c with
  | 9 | 10 | 11 | 12 | 13 | 32 => true
  | _ => false
  end.

Definition isUpperByte (c : ascii) : bool :=
  Nat.leb 65 (nat_of_ascii c) && Nat.leb (nat_of_ascii c) 90.

(** [c += 'a' - 'A'] on an upper-case ASCII letter. *)
Definition lowerByte (c : ascii) : ascii :=
  if isUpperByte c then ascii_of_nat (nat_of_ascii c + 32) else c.

Fixpoint forallb_string (p : ascii -> bool) (s : string) : bool :=
  match s with
  | EmptyString => true
  | String c r => p c && forallb_string p r
  end.

Fixpoint existsb_string (p : ascii -> bool) (s : string) : bool :=
  match s with
  | EmptyString => false
  | String c r => p c || existsb_string p r
  end.

Fixpoint map_string (f : ascii -> ascii) (s : string) : string :=
  match s with
  | EmptyString => EmptyString
  | String c r => String (f c) (map_string f r)
  end.

Fixpoint rev_string (s : string) : string :=
  match s with
  | EmptyString => EmptyString
  | String c r => rev_string r ++ String c EmptyString
  end.

(** The Unicode tables of Go's [unicode] package are not part of the
    program.  Where [strings.ToLower] and [strings.TrimSpace] leave their
    ASCII paths they call into these tables; those three calls are the
    fields of [UnicodeTables]. *)
Record UnicodeTables : Type := {
  (** [strings.Map(unicode.ToLower, s)] *)
  Map_ToLower : string -> string;
  (** [strings.TrimFunc(s, unicode.IsSpace)] *)
  TrimFunc_IsSpace : string -> string;
  (** [strings.TrimRightFunc(s, unicode.IsSpace)] *)
  TrimRightFunc_IsSpace : string -> string
}.

Section WithUnicode.
Variable U : UnicodeTables.

(** [strings.ToLower]: a string of ASCII bytes only is returned as it is
    when it has no upper-case letter and lowered byte by byte when it
    has; any other string goes through the Unicode tables. *)
Definition ToLower (s : string) : string :=
  let isASCII := forallb_string isASCIIByte s in
  let hasUpper := existsb_string isUpperByte s in
  if isASCII then
    if negb hasUpper then s else map_string lowerByte s
  else Map_ToLower U s.

(** Second loop of [strings.TrimSpace], on the reversed string: [stop]
    moves left over ASCII spaces; a byte that is not ASCII hands
    [s[start:stop]] to [TrimRightFunc]. *)
Fixpoint TrimSpace_stop (r : string) : string :=
  match r with
  | EmptyString => EmptyString
  | String c r' =>
      if negb (isASCIIByte c) then TrimRightFunc_IsSpace U (rev_string r)
      else if asciiSpace c then TrimSpace_stop r'
      else rev_string r
  end.

(** First loop of [strings.TrimSpace]: [start] moves right over ASCII
    spaces; a byte that is not ASCII hands [s[start:]] to [TrimFunc]. *)
Fixpoint TrimSpace (s : string) : string :=
  match s with
  | EmptyString => EmptyString
  | String c r =>
      if negb (isASCIIByte c) then TrimFunc_IsSpace U s
      else if asciiSpace c then TrimSpace r
      else TrimSpace_stop (rev_string s)
  end.

End WithUnicode.

(** Tables for runs on ASCII input, where none of the three calls is
    reached: each field hands its argument back. *)
Definition asciiTables : UnicodeTables :=
  {| Map_ToLower := fun s => s;
     TrimFunc_IsSpace := fun s => s;
     TrimRightFunc_IsSpace := fun s => s |}.

End Strings.

Import Strings.

(** ** The notification model of the go-github client *)

(** A [time.Time] instant, in nanoseconds since the Unix epoch. *)
Definition Time : Type := Z.

(** The zero [time.Time]: January 1, year 1, 00:00:00 UTC. *)
Definition zeroTime : Time := (-62135596800 * 1000000000)%Z.

(** [t.After(u)] *)
Definition After (t u : Time) : bool := Z.ltb u t.

Record NotificationSubject : Type := {
  Title : option string;
  URL : option string;
  Type_ : option string
}.

Record Repository : Type := {
  FullName : option string
}.

Record Notification : Type := {
  ID : option string;
  Repository_ : option Repository;
  Subject : option NotificationSubject;
  UpdatedAt : option Time
}.

(** A [*github.Notification]; [None] is the nil pointer. *)
Definition NotificationPtr : Type := option Notification.

Definition orEmpty (o : option string) : string :=
  match o with Some s => s | None => EmptyString end.

(** The getters return the zero value on a nil receiver or a nil field. *)
Definition GetSubject (n : NotificationPtr) : option NotificationSubject :=
  match n with Some n' => Subject n' | None => None end.

Definition GetRepository (n : NotificationPtr) : option Repository :=
  match n with Some n' => Repository_ n' | None => None end.

Definition GetID (n : NotificationPtr) : string :=
  match n with Some n' => orEmpty (ID n') | None => EmptyString end.

Definition GetUpdatedAt (n : NotificationPtr) : Time :=
  match n with
  | Some n' => match UpdatedAt n' with Some t => t | None => zeroTime end
  | None => zeroTime
  end.

Definition GetTitle (s : option NotificationSubject) : string :=
  match s with Some s' => orEmpty (Title s') | None => EmptyString end.

Definition GetURL (s : option NotificationSubject) : string :=
  match s with Some s' => orEmpty (URL s') | None => EmptyString end.

Definition GetType (s : option NotificationSubject) : string :=
  match s with Some s' => orEmpty (Type_ s') | None => EmptyString end.

Definition GetFullName (r : option Repository) : string :=
  match r with Some r' => orEmpty (FullName r') | None => EmptyString end.

(** ** [isRenovate] *)

Definition isRenovate (notification : NotificationPtr) : bool :=
  let subject := GetSubject notification in
  if HasPrefix (GetTitle subject) "chore(deps)" then true
  else if HasPrefix (GetTitle subject) "fix(deps)" then true
  else false.

(** ** [uiURL] *)

Definition prefix : string := "https://api.github.com/repos/".

Definition uiURL (apiURL : string) : string :=
  if negb (HasPrefix apiURL prefix) then apiURL
  else
    let path := TrimPrefix apiURL prefix in
    let parts := Split_slash path in
    if Nat.ltb (List.length parts) 3 then apiURL
    else
      let owner := nth 0 parts EmptyString in
      let repo := nth 1 parts EmptyString in
      let kind := nth 2 parts EmptyString in
      let repoPath := owner ++ "/" ++ repo in
      let homepage := "https://github.com/" ++ repoPath in
      let deep (segment : string) :=
        if Nat.leb 4 (List.length parts)
        then "https://github.com/" ++ repoPath ++ segment ++ nth 3 parts EmptyString
        else homepage in
      if String.eqb kind "pulls" then deep "/pull/"
      else if String.eqb kind "issues" then deep "/issues/"
      else if String.eqb kind "commits" then deep "/commit/"
      else if String.eqb kind "releases" then deep "/releases/"
      else homepage.

(** ** The Go [sort] package: [sort.Slice] *)

Module Sort.

Section Insertion.
Context {A : Type}.
Variable less : A -> A -> bool.

(** Inner loop of [insertionSortLessFunc]: the element [x] at index [j]
    is swapped with its left neighbour as long as [less(j, j-1)].  The
    sorted part to the left of [x] is held nearest neighbour first. *)
Fixpoint sink (x : A) (left : list A) : list A :=
  match left with
  | [] => [x]
  | y :: left' => if less x y then y :: sink x left' else x :: left
  end.

(** [insertionSortLessFunc(data, 0, len)] *)
Definition insertionSort (data : list A) : list A :=
  rev (fold_left (fun left x => sink x left) data []).
End Insertion.

(** What [sort.Slice] asks of [less]: a strict weak ordering. *)
Record StrictWeak {A : Type} (less : A -> A -> bool) : Prop := {
  less_irrefl : forall a, less a a = false;
  less_trans : forall a b c, less a b = true -> less b c = true -> less a c = true;
  less_incomp : forall a b c, less a b = false -> less b c = false -> less a c = false
}.

(** A slice is in order when no later element is less than an earlier
    one. *)
Definition InOrder {A : Type} (less : A -> A -> bool) (l : list A) : Prop :=
  StronglySorted (fun a b => less b a = false) l.

(** [sort.Slice] sorts a slice of more than [maxInsertion] elements with
    pattern-defeating quicksort ([pdqsort_func]), which belongs to the Go
    library and not to the program: it is taken with its contract, a
    rearrangement of the slice that is in order.  It does not promise to
    keep equal elements in their order. *)
Class Pdqsort : Type := {
  pdqsort_func : forall A : Type, (A -> A -> bool) -> list A -> list A;
  pdqsort_func_perm :
    forall A (less : A -> A -> bool) (l : list A),
      Permutation l (pdqsort_func A less l);
  pdqsort_func_sorted :
    forall A (less : A -> A -> bool) (l : list A),
      StrictWeak less -> InOrder less (pdqsort_func A less l)
}.

Definition maxInsertion : nat := 12.

(** [sort.Slice(x, less)], with [less] read as a comparison of the
    elements that stand at the two indices. *)
Definition Slice `{Pdqsort} {A : Type} (x : list A) (less : A -> A -> bool) : list A :=
  if Nat.leb (List.length x) maxInsertion then insertionSort less x
  else pdqsort_func A less x.

(** Insertion sort meets the contract of [pdqsort_func]; it stands for the
    library's sort wherever a run needs a concrete one. *)
Definition insertionPdqsort : Pdqsort.
Proof.
  refine {| pdqsort_func := fun A less l => insertionSort less l |}.
  - intros A less l. unfold insertionSort.
    assert (Hsink : forall x left, Permutation (x :: left) (sink less x left)).
    { intros x left. induction left as [|y left IH]; simpl; [reflexivity|].
      destruct (less x y); [|reflexivity].
      rewrite perm_swap. now constructor. }
    assert (Hfold : forall data left,
               Permutation (rev left ++ data)%list
                 (rev (fold_left (fun left x => sink less x left) data left))).
    { induction data as [|x data IH]; intros left; simpl.
      - now rewrite app_nil_r.
      - rewrite <- IH. apply Permutation_trans with ((rev left ++ [x]) ++ data)%list.
        + now rewrite <- app_assoc.
        + apply Permutation_app_tail. change (rev left ++ [x])%list with (rev (x :: left)).
          rewrite <- !Permutation_rev. apply Hsink. }
    exact (Hfold l []).
  - intros A less l [Hirr Htr Hinc]. unfold InOrder, insertionSort.
    set (R := fun a b : A => less a b = false).
    assert (Hasym : forall a b, less a b = true -> less b a = false).
    { intros a b Hab. destruct (less b a) eqn:Hba; [|reflexivity].
      pose proof (Htr a b a Hab Hba) as Haa. rewrite Hirr in Haa. discriminate. }
    assert (Hperm : forall x left, Permutation (x :: left) (sink less x left)).
    { intros x left. induction left as [|y left IH]; simpl; [reflexivity|].
      destruct (less x y); [|reflexivity].
      rewrite perm_swap. now constructor. }
    assert (Hsink : forall x left, StronglySorted R left -> StronglySorted R (sink less x left)).
    { intros x left. induction left as [|y left IH]; simpl; intros Hs.
      - repeat constructor.
      - inversion Hs as [|? ? Hs' Hall]; subst.
        destruct (less x y) eqn:Hxy.
        + constructor; [now apply IH|].
          apply (Permutation_Forall (Hperm x left)).
          constructor; [now apply Hasym | exact Hall].
        + constructor; [exact Hs|].
          constructor; [exact Hxy|].
          eapply Forall_impl; [|exact Hall].
          intros z Hyz. exact (Hinc x y z Hxy Hyz). }
    assert (Hfold : forall data left,
               StronglySorted R left ->
               StronglySorted R (fold_left (fun left x => sink less x left) data left)).
    { induction data as [|x data IH]; intros left Hs; simpl; [exact Hs|].
      apply IH, Hsink, Hs. }
    assert (Hrev : forall left,
               StronglySorted R left ->
               StronglySorted (fun a b => less b a = false) (rev left)).
    { induction left as [|y left IH]; intros Hs; simpl; [constructor|].
      inversion Hs as [|? ? Hs' Hall]; subst.
      specialize (IH Hs'). revert IH.
      generalize (proj1 (Forall_forall _ _) Hall). intros Hin.
      assert (Hin' : forall z, In z (rev left) -> less y z = false).
      { intros z Hz. apply Hin. now apply in_rev. }
      clear Hin. induction (rev left) as [|z r IHr]; intros Hr; simpl.
      - repeat constructor.
      - inversion Hr as [|? ? Hr' Hallr]; subst.
        constructor.
        + apply IHr; [|exact Hr']. intros w Hw. apply Hin'. now right.
        + apply Forall_app. split; [exact Hallr|].
          constructor; [|constructor]. apply Hin'. now left. }
    apply Hrev, Hfold. constructor.
Defined.

End Sort.

(** ** The environment of a run and its trace *)

Record ListOptions : Type := {
  PerPage : Z;
  Page : Z
}.

Record NotificationListOptions : Type := {
  All : bool;
  Participating : bool;
  ListOptions_ : ListOptions
}.

(** What [ListRepositoryNotifications] hands back: the notifications of the
    page with [resp.NextPage], or an error. *)
Inductive ListResult : Type :=
| ListOK (ns : list NotificationPtr) (NextPage : Z)
| ListError (err : string).

(** Everything the program observes of the world.  The answers of the remote
    API and of the clock may change during the run: they are indexed by the
    number of interactions that came before. *)
Record Environment : Type := {
  (** [os.Getenv("GITHUB_TOKEN")] *)
  GITHUB_TOKEN : string;
  (** [client.Activity.ListRepositoryNotifications(ctx, owner, repo, opts)] *)
  ListRepositoryNotifications :
    nat -> string -> string -> NotificationListOptions -> ListResult;
  (** [client.Activity.MarkThreadRead(ctx, id)]: the error, if any *)
  MarkThreadRead : nat -> string -> option string;
  (** the bytes waiting on standard input *)
  Stdin : string;
  (** [durafmt.Parse(time.Since(t)).LimitFirstN(2)], printed with [%s] *)
  Since : nat -> Time -> string
}.

Inductive Event : Type :=
| ListCall (owner repo : string) (opts : NotificationListOptions) (res : ListResult)
| MarkCall (id : string) (err : option string)
| Stdout (s : string)
| Log (s : string)
| Read (text : string).

(** How [main] ends: by returning, or through [log.Fatal], which exits with
    status 1. *)
Inductive Outcome : Type :=
| Returned
| Exited (code : Z).

Record State : Type := mkState {
  (** the bytes of standard input not read yet *)
  stdin : string;
  (** the interactions so far, oldest first *)
  trace : list Event;
  (** the notifications the review loop has taken from the slice
      ([n := notifications[i]]), in the order it took them *)
  visited : list NotificationPtr
}.

(** A small state monad over [State]. *)
Definition IO (A : Type) : Type := State -> A * State.

Definition ret {A : Type} (a : A) : IO A := fun st => (a, st).

Definition bind {A B : Type} (m : IO A) (k : A -> IO B) : IO B :=
  fun st => let (a, st') := m st in k a st'.

Declare Scope io_scope.
Delimit Scope io_scope with io.
Notation "x <- m ;; k" := (bind m (fun x => k))
  (at level 61, m at next level, right associativity) : io_scope.
Notation "m ;; k" := (bind m (fun _ => k))
  (at level 61, right associativity) : io_scope.

Definition emit (e : Event) : IO unit :=
  fun st => (tt, mkState (stdin st) (trace st ++ [e])%list (visited st)).

(** The number of interactions so far. *)
Definition now : IO nat := fun st => (List.length (trace st), st).

Definition visit (n : NotificationPtr) : IO unit :=
  fun st => (tt, mkState (stdin st) (trace st) (visited st ++ [n])%list).

Definition newline : string := String (ascii_of_nat 10) EmptyString.

(** [fmt.Println(s)] *)
Definition Println (s : string) : IO unit := emit (Stdout (s ++ newline)).

(** [fmt.Print(s)], and [fmt.Printf] once its format is filled in *)
Definition Printf (s : string) : IO unit := emit (Stdout s).

(** [log.Printf] and the printing half of [log.Fatal]: the logger ends the
    message with a newline unless it has one. *)
Definition logOutput (s : string) : IO unit := emit (Log s).

(** [bufio.Reader.ReadString(delim)] on the bytes that are left: everything
    up to and including the first [delim], or all of it when there is no
    [delim] (the error that comes with it is dropped by the program). *)
Fixpoint cutAfter (delim : ascii) (s : string) : string * string :=
  match s with
  | EmptyString => (EmptyString, EmptyString)
  | String c r =>
      if Ascii.eqb c delim then (String c EmptyString, r)
      else let (text, rest) := cutAfter delim r in (String c text, rest)
  end.

Definition ReadString (delim : ascii) : IO string :=
  fun st =>
    let (text, rest) := cutAfter delim (stdin st) in
    (text, mkState rest (trace st ++ [Read text])%list (visited st)).

(** ** The program *)

Section Program.
Variable U : UnicodeTables.
Variable P : Sort.Pdqsort.
Variable E : Environment.

Local Open Scope io_scope.

(** ** [markAsRead] *)
Definition markAsRead (notification : NotificationPtr) : IO unit :=
  k <- now ;;
  let err := MarkThreadRead E k (GetID notification) in
  emit (MarkCall (GetID notification) err) ;;
  match err with
  | Some e => logOutput ("⚠️  Failed to mark as read: " ++ e ++ newline)
  | None => Println "✅ Marked as read."
  end.

(** ** [fetchAllUnread] *)
Definition initialOpts : NotificationListOptions :=
  {| All := false;
     Participating := false;
     ListOptions_ := {| PerPage := 100; Page := 1 |} |}.

Definition setPage (opts : NotificationListOptions) (page : Z) : NotificationListOptions :=
  {| All := All opts;
     Participating := Participating opts;
     ListOptions_ := {| PerPage := PerPage (ListOptions_ opts); Page := page |} |}.

(** The [for] loop of [fetchAllUnread].  Nothing bounds the number of
    pages a server may announce, so the loop runs on [fuel]: one unit for
    each request, [None] when it is used up. *)
Fixpoint fetchLoop (fuel : nat) (opts : NotificationListOptions)
         (all : list NotificationPtr) (st : State)
  : option ((list NotificationPtr * option string) * State) :=
  match fuel with
  | O => None
  | S fuel' =>
      let res := ListRepositoryNotifications E (List.length (trace st))
                   "runatlantis" "atlantis" opts in
      let st1 := snd (emit (ListCall "runatlantis" "atlantis" opts res) st) in
      match res with
      | ListError err => Some (([], Some err), st1)
      | ListOK ns NextPage =>
          let all' := (all ++ ns)%list in
          if Z.eqb NextPage 0 then Some ((all', None), st1)
          else fetchLoop fuel' (setPage opts NextPage) all' st1
      end
  end.

Definition fetchAllUnread (fuel : nat) (st : State)
  : option ((list NotificationPtr * option string) * State) :=
  fetchLoop fuel initialOpts [] st.

(** ** [main] *)

(** [less] of the [sort.Slice] call: the element at [i] was updated after
    the element at [j]. *)
Definition updatedAfter (a b : NotificationPtr) : bool :=
  After (GetUpdatedAt a) (GetUpdatedAt b).

(** Lines 40 to 43: [sort.Slice] with [updatedAfter] as [less], then
    [slices.Reverse]. *)
Definition sortNotifications (notifications : list NotificationPtr)
  : list NotificationPtr :=
  rev (Sort.Slice notifications updatedAfter).

(** [strings.TrimSpace(strings.ToLower(text))] *)
Definition normalize (text : string) : string := TrimSpace U (ToLower U text).

(** The body of the review loop for [n := notifications[i]]. *)
Definition review (n : NotificationPtr) : IO unit :=
  visit n ;;
  let subject := GetSubject n in
  let repo := GetRepository n in
  Println "──────────────────────────────" ;;
  if isRenovate n then
    Printf ("⚡ Auto Approving: " ++ GetTitle subject ++ newline) ;;
    markAsRead n
  else
    Printf ("🔔  " ++ GetTitle subject ++ " (" ++ GetID n ++ ")" ++ newline) ;;
    Printf ("Repo: " ++ GetFullName repo ++ newline) ;;
    Printf ("Type: " ++ GetType subject ++ newline) ;;
    Printf ("URL:  " ++ uiURL (GetURL subject) ++ newline) ;;
    k <- now ;;
    Printf ("Updated: " ++ Since E k (GetUpdatedAt n) ++ " ago" ++ newline) ;;
    Printf "Mark as read? [y/N]: " ;;
    text <- ReadString (ascii_of_nat 10) ;;
    let text := normalize text in
    if String.eqb text "y" || String.eqb text "yes" then markAsRead n
    else Println "⏭️  Skipped.".

(** [for i := len(notifications) - 1; i >= 0; i--]: [reviewLoop k] runs
    the body for the indices [k-1], ..., [0]. *)
Fixpoint reviewLoop (k : nat) (notifications : list NotificationPtr) : IO unit :=
  match k with
  | O => ret tt
  | S i => review (nth i notifications None) ;; reviewLoop i notifications
  end.

Definition main (fuel : nat) (st : State) : option (Outcome * State) :=
  let token := GITHUB_TOKEN E in
  if String.eqb token "" then
    Some (Exited 1, snd (logOutput "GITHUB_TOKEN environment variable is required" st))
  else
    match fetchAllUnread fuel st with
    | None => None
    | Some ((notifications, Some err), st) =>
        Some (Exited 1, snd (logOutput ("error fetching notifications: " ++ err) st))
    | Some ((notifications, None), st) =>
        if Nat.eqb (List.length notifications) 0 then
          Some (Returned, snd (Println "No unread notifications." st))
        else
          let notifications := sortNotifications notifications in
          if Nat.eqb (List.length notifications) 0 then
            Some (Returned, snd (Println "🎉 No unread notifications!" st))
          else
            Some (Returned,
                  snd ((reviewLoop (List.length notifications) notifications ;;
                        Println "✅ Done processing notifications.") st))
    end.

(** The state in which the process starts. *)
Definition start : State :=
  {| stdin := Stdin E; trace := []; visited := [] |}.

Definition run (fuel : nat) : option (Outcome * State) := main fuel start.

End Program.

(** ** Words used to state the properties *)

(** A path segment: a string without a slash. *)
Definition segment (s : string) : bool :=
  forallb_string (fun c => negb (Ascii.eqb c slash)) s.

(** The kinds the translator knows, and the path each one maps to. *)
Definition recognized (kind : string) : bool :=
  String.eqb kind "pulls" || String.eqb kind "issues"
  || String.eqb kind "commits" || String.eqb kind "releases".

Definition homepage (owner repo : string) : string :=
  "https://github.com/" ++ owner ++ "/" ++ repo.

Definition kindPath (kind : string) : string :=
  if String.eqb kind "pulls" then "/pull/"
  else if String.eqb kind "issues" then "/issues/"
  else if String.eqb kind "commits" then "/commit/"
  else "/releases/".

(** The notifications last updated at [t]. *)
Definition updatedAtIs (t : Time) (n : NotificationPtr) : bool :=
  Z.eqb (GetUpdatedAt n) t.

(** [output] keeps the notifications of equal update time in the order they
    have in [input]. *)
Definition KeepsTies (input output : list NotificationPtr) : Prop :=
  forall t, filter (updatedAtIs t) output = filter (updatedAtIs t) input.

(** [a] is not newer than [b]. *)
Definition notNewer (a b : NotificationPtr) : Prop :=
  (GetUpdatedAt a <= GetUpdatedAt b)%Z.

(** A notification with the fields the program reads. *)
Definition notification (id title : string) (updated : Time) : NotificationPtr :=
  Some {| ID := Some id;
          Repository_ := Some {| FullName := Some "runatlantis/atlantis" |};
          Subject := Some {| Title := Some title;
                             URL := Some "https://api.github.com/repos/runatlantis/atlantis/pulls/1";
                             Type_ := Some "PullRequest" |};
          UpdatedAt := Some updated |}.

(** The identifiers of the threads the trace asks to mark as read, in the
    order of the requests. *)
Definition markCalls (evs : list Event) : list string :=
  flat_map (fun e => match e with MarkCall id _ => [id] | _ => [] end) evs.

(** The requests of the trace to the remote API, of either kind. *)
Definition remoteCalls (evs : list Event) : list Event :=
  filter (fun e => match e with ListCall _ _ _ _ | MarkCall _ _ => true | _ => false end) evs.

(** The lines the trace reads from standard input. *)
Definition reads (evs : list Event) : list string :=
  flat_map (fun e => match e with Read text => [text] | _ => [] end) evs.

(** One answered page of the pagination: the options it was asked with, its
    notifications and its [NextPage]. *)
Record Answer : Type := {
  request : NotificationListOptions;
  items : list NotificationPtr;
  next : Z
}.

(** The trace of a page that was answered. *)
Definition answered (p : Answer) : Event :=
  ListCall "runatlantis" "atlantis" (request p) (ListOK (items p) (next p)).

(** [Pagination E k opts pages]: from interaction [k] on, asked with [opts]
    first, the server of [E] answers the pages [pages] one after the other,
    each request carrying the [NextPage] of the answer before; every answer
    but the last announces a next page, the last one announces none. *)
Inductive Pagination (E : Environment)
  : nat -> NotificationListOptions -> list Answer -> Prop :=
| pagination_last k opts ns :
    ListRepositoryNotifications E k "runatlantis" "atlantis" opts = ListOK ns 0 ->
    Pagination E k opts [{| request := opts; items := ns; next := 0 |}]
| pagination_next k opts ns np rest :
    ListRepositoryNotifications E k "runatlantis" "atlantis" opts = ListOK ns np ->
    np <> 0%Z ->
    Pagination E (S k) (setPage opts np) rest ->
    Pagination E k opts ({| request := opts; items := ns; next := np |} :: rest).

(** [Failing E k opts pages last err]: the same, but after the pages
    [pages], each announcing a next page, the request [last] fails with
    [err]. *)
Inductive Failing (E : Environment)
  : nat -> NotificationListOptions -> list Answer -> NotificationListOptions -> string -> Prop :=
| failing_now k opts err :
    ListRepositoryNotifications E k "runatlantis" "atlantis" opts = ListError err ->
    Failing E k opts [] opts err
| failing_later k opts ns np rest last err :
    ListRepositoryNotifications E k "runatlantis" "atlantis" opts = ListOK ns np ->
    np <> 0%Z ->
    Failing E (S k) (setPage opts np) rest last err ->
    Failing E k opts ({| request := opts; items := ns; next := np |} :: rest) last err.

(** The trace of [markAsRead] at interaction [k]. *)
Definition markEvents (E : Environment) (k : nat) (n : NotificationPtr) : list Event :=
  let err := MarkThreadRead E k (GetID n) in
  [MarkCall (GetID n) err;
   match err with
   | Some e => Log ("⚠️  Failed to mark as read: " ++ e ++ newline)
   | None => Stdout ("✅ Marked as read." ++ newline)
   end].

(** Events of the terminal: output and input. *)
Definition terminal (e : Event) : bool :=
  match e with Stdout _ | Read _ => true | _ => false end.

(** The trace of one turn of the review loop on [n]: terminal events, and
    after them at most one [markAsRead]. *)
Inductive Reviewed (E : Environment) (n : NotificationPtr) : list Event -> Prop :=
| reviewed_skipped shown :
    forallb terminal shown = true -> Reviewed E n shown
| reviewed_marked shown k :
    forallb terminal shown = true -> Reviewed E n (shown ++ markEvents E k n)%list.

(** [l] is [m] with some elements left out. *)
Inductive Subseq {A : Type} : list A -> list A -> Prop :=
| subseq_nil : Subseq [] []
| subseq_skip x l m : Subseq l m -> Subseq l (x :: m)
| subseq_take x l m : Subseq l m -> Subseq (x :: l) (x :: m).

(** An environment that answers the list requests from a script, one entry
    for each request, and every mark request with [markErr]. *)
Definition scripted (pages : list ListResult) (markErr : option string) (input : string)
  : Environment :=
  {| GITHUB_TOKEN := "token";
     ListRepositoryNotifications := fun k _ _ _ => nth k pages (ListError "connection reset");
     MarkThreadRead := fun _ _ => markErr;
     Stdin := input;
     Since := fun _ _ => "3 days 4 hours" |}.

(** What the review loop shows of [n] before it asks, at interaction [k]. *)
Definition rendering (E : Environment) (k : nat) (n : NotificationPtr) : list Event :=
  [Stdout ("──────────────────────────────" ++ newline);
   Stdout ("🔔  " ++ GetTitle (GetSubject n) ++ " (" ++ GetID n ++ ")" ++ newline);
   Stdout ("Repo: " ++ GetFullName (GetRepository n) ++ newline);
   Stdout ("Type: " ++ GetType (GetSubject n) ++ newline);
   Stdout ("URL:  " ++ uiURL (GetURL (GetSubject n)) ++ newline);
   Stdout ("Updated: " ++ Since E (k + 5) (GetUpdatedAt n) ++ " ago" ++ newline);
   Stdout "Mark as read? [y/N]: "].

Definition skipped : Event := Stdout ("⏭️  Skipped." ++ newline).

Definition done : Event := Stdout ("✅ Done processing notifications." ++ newline).

(** The answer is a yes. *)
Definition confirms (U : UnicodeTables) (text : string) : Prop :=
  normalize U text = "y" \/ normalize U text = "yes".

(** A list request that failed. *)
Definition failedList (e : Event) : bool :=
  match e with ListCall _ _ _ (ListError _) => true | _ => false end.

(** Two unread notifications, the older one first, and a user who declines
    both. *)
Definition twoUnread : Environment :=
  scripted [ListOK [notification "1" "older" 1%Z; notification "2" "newer" 2%Z] 0]
    None ("n" ++ newline ++ "n" ++ newline).

(** One turn of the review loop, as a change of the state. *)
Definition turn (U : UnicodeTables) (E : Environment) (st : State) (n : NotificationPtr)
  : State :=
  snd (review U E n st).

(** The turns on [ns], first to last. *)
Definition turns (U : UnicodeTables) (E : Environment)
           (ns : list NotificationPtr) (st : State) : State :=
  fold_left (turn U E) ns st.

(** A list request. *)
Definition isListCall (e : Event) : bool :=
  match e with ListCall _ _ _ _ => true | _ => false end.

(** The options every list request of the program carries, the page
    apart: unread only, not restricted to participation, 100 to a page. *)
Definition fixedOpts (opts : NotificationListOptions) : bool :=
  negb (All opts) && negb (Participating opts)
  && Z.eqb (PerPage (ListOptions_ opts)) 100.

(** A list request for the repository of the program with those options. *)
Definition fixedQuery (e : Event) : bool :=
  match e with
  | ListCall owner repo opts _ =>
      String.eqb owner "runatlantis" && String.eqb repo "atlantis" && fixedOpts opts
  | _ => false
  end.

(** The message of the second emptiness check of [main] (line 46). *)
Definition celebration : Event := Stdout ("🎉 No unread notifications!" ++ newline).

(** A server that has one more page after every page. *)
Definition endless : Environment :=
  {| GITHUB_TOKEN := "token";
     ListRepositoryNotifications :=
       fun _ _ _ _ => ListOK [notification "1" "again" 1%Z] 2;
     MarkThreadRead := fun _ _ => None;
     Stdin := "";
     Since := fun _ _ => "1 hour" |}.

(** A string of ASCII white space. *)
Definition blank (s : string) : bool := forallb_string asciiSpace s.

(** The strings of [l] one after the other. *)
Definition joined (l : list string) : string := fold_right append "" l.

(** A string without a line feed. *)
Definition oneLine (s : string) : bool :=
  forallb_string (fun c => negb (Ascii.eqb c (ascii_of_nat 10))) s.

(** [FirstLine input text rest]: [text] is the first line of [input], its
    line feed included, and [rest] is what follows that line feed; or
    [input] holds no line feed, [text] is all of it and nothing is left. *)
Definition FirstLine (input text rest : string) : Prop :=
  (exists line, oneLine line = true /\ text = line ++ newline /\ input = text ++ rest)
  \/ (oneLine input = true /\ text = input /\ rest = "").


(** * Properties *)

(** ** Strings *)

Lemma prefix_iff (p s : string) :
  HasPrefix s p = true <-> exists r, s = p ++ r.
Proof.
  unfold HasPrefix. revert s. induction p as [|c p IH]; intros s.
  - split; [intros _; exists s; reflexivity | intros _; destruct s; reflexivity].
  - destruct s as [|d s]; simpl.
    + split; [discriminate | intros [r Hr]; discriminate].
    + destruct (ascii_dec c d) as [->|Hcd].
      * rewrite IH. split; intros [r Hr]; exists r; [now rewrite Hr | now inversion Hr].
      * split; [discriminate | intros [r Hr]; inversion Hr; congruence].
Qed.

Lemma HasPrefix_app (p s : string) : HasPrefix (p ++ s) p = true.
Proof. apply prefix_iff. now exists s. Qed.

Lemma substring_all (s : string) : substring 0 (String.length s) s = s.
Proof. induction s as [|c s IH]; simpl; [reflexivity | now rewrite IH]. Qed.

Lemma string_length_app (p s : string) :
  String.length (p ++ s) = String.length p + String.length s.
Proof. induction p as [|c p IH]; simpl; [reflexivity | now rewrite IH]. Qed.

Lemma TrimPrefix_app (p s : string) : TrimPrefix (p ++ s) p = s.
Proof.
  unfold TrimPrefix. rewrite HasPrefix_app, string_length_app.
  replace (String.length p + String.length s - String.length p)
    with (String.length s) by lia.
  induction p as [|c p IH]; simpl; [apply substring_all | exact IH].
Qed.

Lemma SplitByte_segment (s : string) :
  segment s = true -> SplitByte slash s = [s].
Proof.
  induction s as [|c s IH]; simpl; [reflexivity|].
  intros H. apply andb_true_iff in H as [Hc Hs].
  apply negb_true_iff in Hc. rewrite Hc, (IH Hs). reflexivity.
Qed.

Lemma SplitByte_app (s t : string) :
  segment s = true ->
  SplitByte slash (s ++ String slash t) = s :: SplitByte slash t.
Proof.
  induction s as [|c s IH]; simpl; intros H.
  - reflexivity.
  - apply andb_true_iff in H as [Hc Hs].
    apply negb_true_iff in Hc. rewrite Hc, (IH Hs). reflexivity.
Qed.

Lemma Split_Join (p : string) (parts : list string) :
  forallb segment (p :: parts) = true ->
  Split_slash (Join (p :: parts) "/") = p :: parts.
Proof.
  unfold Split_slash. revert p. induction parts as [|q parts IH]; intros p H.
  - simpl in *. apply SplitByte_segment. now rewrite andb_true_r in H.
  - change (Join (p :: q :: parts) "/") with (p ++ String slash (Join (q :: parts) "/")).
    simpl in H. apply andb_true_iff in H as [Hp Hq].
    rewrite (SplitByte_app _ _ Hp), IH; [reflexivity | exact Hq].
Qed.

(** ** [uiURL] *)

(** [uiURL] on a URL under the API root, stated on the segments of its
    path. *)
Lemma uiURL_parts (path : string) :
  uiURL (prefix ++ path) =
    match Split_slash path with
    | owner :: repo :: kind :: more =>
        if recognized kind then
          match more with
          | id :: _ =>
              homepage owner repo ++ kindPath kind ++ id
          | [] => homepage owner repo
          end
        else homepage owner repo
    | _ => prefix ++ path
    end.
Proof.
  unfold uiURL. rewrite HasPrefix_app, TrimPrefix_app. cbv [negb].
  destruct (Split_slash path) as [|owner [|repo [|kind more]]]; try reflexivity.
  cbv [List.length Nat.ltb Nat.leb nth recognized homepage kindPath].
  destruct more as [|id more].
  - cbv [List.length Nat.leb].
    destruct (String.eqb kind "pulls"), (String.eqb kind "issues"),
      (String.eqb kind "commits"), (String.eqb kind "releases"); reflexivity.
  - cbv [List.length Nat.leb nth].
    destruct (String.eqb kind "pulls"), (String.eqb kind "issues"),
      (String.eqb kind "commits"), (String.eqb kind "releases");
      cbn [orb]; reflexivity.
Qed.

Lemma append_assoc (a b c : string) : (a ++ b) ++ c = a ++ b ++ c.
Proof. induction a as [|x a IH]; simpl; [reflexivity | now rewrite IH]. Qed.

Lemma homepage_deep (owner repo seg id : string) :
  homepage owner repo ++ seg ++ id
  = "https://github.com/" ++ owner ++ "/" ++ repo ++ seg ++ id.
Proof. unfold homepage. now rewrite !append_assoc. Qed.

(** C2: a URL [<api-root>/repos/<owner>/<repo>/<kind>/<id>], with or without
    further segments after the id, is translated by the table: [pulls] to
    [.../pull/<id>], [issues] to [.../issues/<id>], [commits] to
    [.../commit/<id>], [releases] to [.../releases/<id>], and every other
    kind to the homepage of the repository. *)
Theorem uiURL_mapping_table (owner repo kind id : string) (rest : list string) :
  forallb segment (owner :: repo :: kind :: id :: rest) = true ->
  let url := prefix ++ Join (owner :: repo :: kind :: id :: rest) "/" in
  (kind = "pulls" ->
     uiURL url = "https://github.com/" ++ owner ++ "/" ++ repo ++ "/pull/" ++ id) /\
  (kind = "issues" ->
     uiURL url = "https://github.com/" ++ owner ++ "/" ++ repo ++ "/issues/" ++ id) /\
  (kind = "commits" ->
     uiURL url = "https://github.com/" ++ owner ++ "/" ++ repo ++ "/commit/" ++ id) /\
  (kind = "releases" ->
     uiURL url = "https://github.com/" ++ owner ++ "/" ++ repo ++ "/releases/" ++ id) /\
  (recognized kind = false ->
     uiURL url = "https://github.com/" ++ owner ++ "/" ++ repo).
Proof.
  intros Hseg url. unfold url. rewrite uiURL_parts, (Split_Join _ _ Hseg).
  cbv iota beta.
  repeat split; intros Hk; try (subst kind; apply homepage_deep).
  rewrite Hk. reflexivity.
Qed.

Lemma uiURL_mapping_table_witness :
  uiURL "https://api.github.com/repos/acme/widgets/pulls/42"
    = "https://github.com/acme/widgets/pull/42" /\
  uiURL "https://api.github.com/repos/acme/widgets/issues/7"
    = "https://github.com/acme/widgets/issues/7" /\
  uiURL "https://api.github.com/repos/acme/widgets/commits/abc123"
    = "https://github.com/acme/widgets/commit/abc123" /\
  uiURL "https://api.github.com/repos/acme/widgets/releases/9"
    = "https://github.com/acme/widgets/releases/9" /\
  uiURL "https://api.github.com/repos/acme/widgets/discussions/1"
    = "https://github.com/acme/widgets".
Proof.
  split; [|split; [|split; [|split]]].
  - apply (uiURL_mapping_table "acme" "widgets" "pulls" "42" []); reflexivity.
  - apply (uiURL_mapping_table "acme" "widgets" "issues" "7" []); reflexivity.
  - apply (uiURL_mapping_table "acme" "widgets" "commits" "abc123" []); reflexivity.
  - apply (uiURL_mapping_table "acme" "widgets" "releases" "9" []); reflexivity.
  - apply (uiURL_mapping_table "acme" "widgets" "discussions" "1" []); reflexivity.
Defined.

(** C3: the translator is a total function.  A string that does not start
    with the API root, or whose path after it has fewer than 3 segments,
    comes back unchanged; a recognized kind with no id after it gives the
    homepage of the repository. *)
Theorem uiURL_fallbacks :
  (forall s, exists out, uiURL s = out) /\
  (forall s, HasPrefix s prefix = false -> uiURL s = s) /\
  (forall s, List.length (Split_slash (TrimPrefix s prefix)) < 3 -> uiURL s = s) /\
  (forall s owner repo kind,
      HasPrefix s prefix = true ->
      Split_slash (TrimPrefix s prefix) = [owner; repo; kind] ->
      recognized kind = true ->
      uiURL s = "https://github.com/" ++ owner ++ "/" ++ repo).
Proof.
  split; [intros s; eexists; reflexivity|].
  split; [intros s H; unfold uiURL; now rewrite H|].
  split.
  - intros s H. unfold uiURL.
    destruct (HasPrefix s prefix); [|reflexivity].
    apply Nat.ltb_lt in H. cbv [negb]. cbv zeta. now rewrite H.
  - intros s owner repo kind Hp Hs Hk.
    apply prefix_iff in Hp as [path ->].
    rewrite TrimPrefix_app in Hs. rewrite uiURL_parts, Hs, Hk. reflexivity.
Qed.

Lemma uiURL_fallbacks_witness :
  uiURL "not-a-github-url" = "not-a-github-url" /\
  uiURL "https://api.github.com/repos/acme/widgets"
    = "https://api.github.com/repos/acme/widgets" /\
  uiURL "https://api.github.com/repos/acme/widgets/pulls"
    = "https://github.com/acme/widgets".
Proof.
  destruct uiURL_fallbacks as (_ & Hprefix & Hshort & Hnoid).
  split; [|split].
  - apply Hprefix. reflexivity.
  - apply Hshort. vm_compute. lia.
  - apply (Hnoid _ "acme" "widgets" "pulls"); reflexivity.
Defined.

(** C10: with a recognized kind and segments after the id, only the fourth
    segment is used: the link is the one of the URL that stops at the id,
    as for [.../pulls/42/comments/7], which maps to [.../pull/42]. *)
Theorem uiURL_ignores_later_segments
        (owner repo kind id extra : string) (rest : list string) :
  forallb segment (owner :: repo :: kind :: id :: extra :: rest) = true ->
  recognized kind = true ->
  uiURL (prefix ++ Join (owner :: repo :: kind :: id :: extra :: rest) "/")
    = "https://github.com/" ++ owner ++ "/" ++ repo ++ kindPath kind ++ id
  /\ uiURL (prefix ++ Join (owner :: repo :: kind :: id :: extra :: rest) "/")
    = uiURL (prefix ++ Join [owner; repo; kind; id] "/").
Proof.
  intros Hseg Hk.
  assert (Hseg4 : forallb segment [owner; repo; kind; id] = true).
  { cbn [forallb] in *. repeat (apply andb_true_iff in Hseg as [? Hseg]).
    repeat (apply andb_true_iff; split); auto. }
  rewrite !uiURL_parts, (Split_Join _ _ Hseg), (Split_Join _ _ Hseg4), Hk.
  split; [apply homepage_deep | reflexivity].
Qed.

Lemma uiURL_ignores_later_segments_witness :
  uiURL "https://api.github.com/repos/acme/widgets/pulls/42/comments/7"
    = "https://github.com/acme/widgets/pull/42".
Proof.
  apply (uiURL_ignores_later_segments "acme" "widgets" "pulls" "42" "comments" ["7"]);
    reflexivity.
Defined.

(** ** [isRenovate] *)

(** C4: the classifier answers true exactly for the titles that begin with
    [chore(deps)] or [fix(deps)], and two notifications with the same title
    are classified alike whatever their other fields hold. *)
Theorem isRenovate_title_prefix :
  (forall n : NotificationPtr,
      isRenovate n = true <->
      (exists rest, GetTitle (GetSubject n) = "chore(deps)" ++ rest) \/
      (exists rest, GetTitle (GetSubject n) = "fix(deps)" ++ rest)) /\
  (forall n m : NotificationPtr,
      GetTitle (GetSubject n) = GetTitle (GetSubject m) ->
      isRenovate n = isRenovate m) /\
  (forall id repo url type updated title,
      let n := Some {| ID := id; Repository_ := repo;
                       Subject := Some {| Title := Some title; URL := url; Type_ := type |};
                       UpdatedAt := updated |} in
      (title = "chore(deps): bump x to y" -> isRenovate n = true) /\
      (title = "fix(deps): patch z" -> isRenovate n = true) /\
      (title = "feat: add widget" -> isRenovate n = false) /\
      (title = "" -> isRenovate n = false)).
Proof.
  split; [|split].
  - intros n. unfold isRenovate. rewrite <- !prefix_iff.
    destruct (HasPrefix _ "chore(deps)"), (HasPrefix _ "fix(deps)");
      intuition discriminate.
  - intros n m H. unfold isRenovate. now rewrite H.
  - intros id repo url type updated title n.
    repeat split; intros ->; reflexivity.
Qed.

Lemma isRenovate_title_prefix_witness :
  isRenovate (Some {| ID := Some "1"; Repository_ := None;
                      Subject := Some {| Title := Some "chore(deps): bump x to y";
                                         URL := None; Type_ := None |};
                      UpdatedAt := None |}) = true.
Proof.
  apply (proj2 (proj1 isRenovate_title_prefix _)).
  left. exists ": bump x to y". reflexivity.
Defined.

(** ** [sort.Slice] and the order of the notifications *)

Section SortFacts.
Context {A : Type}.
Variable less : A -> A -> bool.

Lemma insertionSort_perm (l : list A) : Permutation l (Sort.insertionSort less l).
Proof. exact (@Sort.pdqsort_func_perm Sort.insertionPdqsort A less l). Qed.

Lemma insertionSort_InOrder (l : list A) :
  Sort.StrictWeak less -> Sort.InOrder less (Sort.insertionSort less l).
Proof. exact (@Sort.pdqsort_func_sorted Sort.insertionPdqsort A less l). Qed.

Lemma Slice_perm (P : Sort.Pdqsort) (l : list A) : Permutation l (Sort.Slice l less).
Proof.
  unfold Sort.Slice. destruct (Nat.leb _ _).
  - apply insertionSort_perm.
  - apply Sort.pdqsort_func_perm.
Qed.

Lemma Slice_InOrder (P : Sort.Pdqsort) (l : list A) :
  Sort.StrictWeak less -> Sort.InOrder less (Sort.Slice l less).
Proof.
  intros SW. unfold Sort.Slice. destruct (Nat.leb _ _).
  - now apply insertionSort_InOrder.
  - now apply Sort.pdqsort_func_sorted.
Qed.

(** Insertion sort is stable: elements that [less] does not tell apart stay
    in their order. *)
Variable p : A -> bool.
Hypothesis ties : forall a b, p a = true -> p b = true -> less a b = false.

Lemma filter_sink (x : A) (left : list A) :
  filter p (Sort.sink less x left) = filter p (x :: left).
Proof.
  induction left as [|y left IH]; [reflexivity|].
  cbn [Sort.sink]. destruct (less x y) eqn:Hxy; [|reflexivity].
  cbn [filter] in *. rewrite IH.
  destruct (p x) eqn:Hx, (p y) eqn:Hy; try reflexivity.
  rewrite (ties x y Hx Hy) in Hxy. discriminate.
Qed.

Lemma filter_insertion_fold (data left : list A) :
  filter p (fold_left (fun left x => Sort.sink less x left) data left)
  = (rev (filter p data) ++ filter p left)%list.
Proof.
  revert left. induction data as [|x data IH]; intros left; [reflexivity|].
  cbn [fold_left]. rewrite IH, filter_sink. cbn [filter].
  destruct (p x); [|reflexivity].
  cbn [rev]. now rewrite <- app_assoc.
Qed.

Lemma filter_rev (l : list A) : filter p (rev l) = rev (filter p l).
Proof.
  induction l as [|x l IH]; [reflexivity|].
  cbn [rev filter]. rewrite filter_app, IH. cbn [filter].
  destruct (p x); [reflexivity | now rewrite app_nil_r].
Qed.

Lemma insertionSort_stable (l : list A) :
  filter p (Sort.insertionSort less l) = filter p l.
Proof.
  unfold Sort.insertionSort.
  rewrite filter_rev, filter_insertion_fold. cbn [filter].
  now rewrite app_nil_r, rev_involutive.
Qed.

End SortFacts.

Lemma StronglySorted_rev {A : Type} (R : A -> A -> Prop) (l : list A) :
  StronglySorted R l -> StronglySorted (fun a b => R b a) (rev l).
Proof.
  induction 1 as [|x l Hs IH Hall]; [constructor|].
  cbn [rev]. rewrite Forall_forall in Hall.
  assert (Hin : forall z, In z (rev l) -> R x z) by (intros z Hz; now apply Hall, in_rev).
  clear Hall Hs. induction IH as [|z r Hr IHr Hallr]; cbn [app].
  - repeat constructor.
  - constructor.
    + apply IHr. intros w Hw. apply Hin. now right.
    + apply Forall_app. split; [exact Hallr|].
      constructor; [|constructor]. apply Hin. now left.
Qed.

Lemma updatedAfter_StrictWeak : Sort.StrictWeak updatedAfter.
Proof.
  unfold updatedAfter, After. constructor.
  - intros a. apply Z.ltb_irrefl.
  - intros a b c. rewrite !Z.ltb_lt. lia.
  - intros a b c. rewrite !Z.ltb_ge. lia.
Qed.

Lemma sortNotifications_perm (P : Sort.Pdqsort) (l : list NotificationPtr) :
  Permutation l (sortNotifications P l).
Proof.
  unfold sortNotifications. rewrite <- Permutation_rev. apply Slice_perm.
Qed.

Lemma sortNotifications_length (P : Sort.Pdqsort) (l : list NotificationPtr) :
  List.length (sortNotifications P l) = List.length l.
Proof. symmetry. apply Permutation_length, sortNotifications_perm. Qed.

(** After line 43 the slice is ascending: no notification is newer than one
    that stands later. *)
Lemma sortNotifications_StronglySorted (P : Sort.Pdqsort) (l : list NotificationPtr) :
  StronglySorted notNewer (sortNotifications P l).
Proof.
  unfold sortNotifications.
  pose proof (Slice_InOrder updatedAfter P l updatedAfter_StrictWeak) as H.
  apply StronglySorted_rev in H.
  induction H as [|x r Hs IH Hall]; constructor; [exact IH|].
  eapply Forall_impl; [|exact Hall].
  intros y Hy. unfold notNewer. unfold updatedAfter, After in Hy.
  apply Z.ltb_ge in Hy. exact Hy.
Qed.

(** On a slice of at most [maxInsertion] elements the notifications of one
    update time come out in the reverse of their order. *)
Lemma sortNotifications_reverses_ties (P : Sort.Pdqsort) (l : list NotificationPtr) :
  List.length l <= Sort.maxInsertion ->
  forall t, filter (updatedAtIs t) (sortNotifications P l) = rev (filter (updatedAtIs t) l).
Proof.
  intros Hlen t. unfold sortNotifications, Sort.Slice.
  apply Nat.leb_le in Hlen. rewrite Hlen.
  rewrite filter_rev. f_equal. apply insertionSort_stable.
  intros a b Ha Hb. unfold updatedAtIs in *. apply Z.eqb_eq in Ha, Hb.
  unfold updatedAfter, After. apply Z.ltb_ge. lia.
Qed.

(** C5, as the code has it: the sorted slice is a rearrangement of the
    fetched one in which, for each adjacent pair, the earlier notification
    is not newer than the later one.  Notifications of equal update time do
    not keep their order: on a slice of at most 12 elements they come out in
    the reverse of it. *)
Theorem sortNotifications_ascending (P : Sort.Pdqsort) (l : list NotificationPtr) :
  Permutation l (sortNotifications P l) /\
  Sorted notNewer (sortNotifications P l) /\
  (List.length l <= 12 ->
   forall t, filter (updatedAtIs t) (sortNotifications P l)
             = rev (filter (updatedAtIs t) l)).
Proof.
  split; [apply sortNotifications_perm|].
  split; [apply StronglySorted_Sorted, sortNotifications_StronglySorted|].
  apply sortNotifications_reverses_ties.
Qed.

Lemma sortNotifications_ascending_witness :
  filter (updatedAtIs 5%Z)
    (sortNotifications Sort.insertionPdqsort
       [notification "1" "a" 5%Z; notification "2" "b" 3%Z; notification "3" "c" 5%Z])
  = [notification "3" "c" 5%Z; notification "1" "a" 5%Z].
Proof.
  refine (proj2 (proj2 (sortNotifications_ascending Sort.insertionPdqsort
            [notification "1" "a" 5%Z; notification "2" "b" 3%Z;
             notification "3" "c" 5%Z])) _ 5%Z).
  cbn [List.length]. lia.
Defined.

(** C5 as stated fails: two notifications updated at the same instant leave
    the sorter in the other order. *)
Lemma sortNotifications_not_stable :
  ~ KeepsTies [notification "1" "a" 5%Z; notification "2" "b" 5%Z]
      (sortNotifications Sort.insertionPdqsort
         [notification "1" "a" 5%Z; notification "2" "b" 5%Z]).
Proof.
  intros H. specialize (H 5%Z). vm_compute in H. discriminate H.
Qed.

(** ** [fetchAllUnread] *)

Section FetchFacts.
Variable E : Environment.

(** A fetch that succeeds has walked a complete pagination and returns its
    pages in order, after what it had already. *)
Lemma fetchLoop_success (fuel : nat) :
  forall opts all st ns st',
    fetchLoop E fuel opts all st = Some ((ns, None), st') ->
    exists pages,
      Pagination E (List.length (trace st)) opts pages /\
      ns = (all ++ concat (map items pages))%list /\
      st' = mkState (stdin st) (trace st ++ map answered pages)%list (visited st).
Proof.
  induction fuel as [|fuel IH]; intros opts all st ns st' H; [discriminate|].
  cbn [fetchLoop] in H.
  destruct (ListRepositoryNotifications E _ _ _ opts) as [page np|err] eqn:Hres;
    [|discriminate].
  destruct (Z.eqb np 0) eqn:Hnp.
  - apply Z.eqb_eq in Hnp. subst np. injection H as <- <-.
    exists [{| request := opts; items := page; next := 0 |}].
    split; [now constructor|]. cbn. now rewrite app_nil_r.
  - apply Z.eqb_neq in Hnp. apply IH in H as (pages & Hp & -> & ->).
    exists ({| request := opts; items := page; next := np |} :: pages).
    cbn [emit snd trace stdin visited] in *.
    rewrite length_app, Nat.add_comm in Hp. cbn [List.length Nat.add] in Hp.
    split; [now constructor|].
    cbn [map concat]. now rewrite <- !app_assoc.
Qed.

Lemma fetchLoop_next (fuel : nat) opts all st ns np :
  ListRepositoryNotifications E (List.length (trace st)) "runatlantis" "atlantis" opts
    = ListOK ns np ->
  np <> 0%Z ->
  fetchLoop E (S fuel) opts all st
  = fetchLoop E fuel (setPage opts np) (all ++ ns)%list
      (mkState (stdin st)
         (trace st ++ [answered {| request := opts; items := ns; next := np |}])%list
         (visited st)).
Proof.
  intros Hres Hnp. cbn [fetchLoop]. rewrite Hres.
  apply Z.eqb_neq in Hnp. now rewrite Hnp.
Qed.

Lemma length_snoc {A : Type} (l : list A) (x : A) :
  List.length (l ++ [x])%list = S (List.length l).
Proof. rewrite length_app. cbn. lia. Qed.

(** Instantiates the induction hypothesis of the two lemmas on complete
    and on failing paginations at the state the loop continues with. *)
Ltac use_IH IH fuel :=
  match goal with
  | |- context [fetchLoop _ fuel _ ?all ?s] =>
      destruct (IH fuel all s (eq_sym (length_snoc _ _))) as [IHok IHnone]
  end.

(** A complete pagination of [n] pages is fetched with [n] requests, and
    not with fewer. *)
Lemma fetchLoop_complete (pages : list Answer) :
  forall k opts, Pagination E k opts pages ->
  forall fuel all st, k = List.length (trace st) ->
    (List.length pages <= fuel ->
     fetchLoop E fuel opts all st
     = Some ((all ++ concat (map items pages), None)%list,
             mkState (stdin st) (trace st ++ map answered pages)%list (visited st))) /\
    (fuel < List.length pages -> fetchLoop E fuel opts all st = None).
Proof.
  induction 1 as [k opts ns Hres | k opts ns np rest Hres Hnp Hrest IH];
    intros fuel all st ->.
  - split; intros Hf.
    + destruct fuel as [|fuel]; [cbn in Hf; lia|].
      cbn [fetchLoop]. rewrite Hres. cbn. now rewrite app_nil_r.
    + cbn in Hf. now replace fuel with 0 by lia.
  - split; intros Hf.
    + destruct fuel as [|fuel]; [cbn in Hf; lia|].
      rewrite (fetchLoop_next _ _ _ _ _ _ Hres Hnp).
      cbn [List.length] in Hf.
      use_IH IH fuel. rewrite IHok by lia.
      cbn. now rewrite <- !app_assoc.
    + destruct fuel as [|fuel]; [reflexivity|].
      rewrite (fetchLoop_next _ _ _ _ _ _ Hres Hnp).
      cbn [List.length] in Hf.
      use_IH IH fuel. apply IHnone. lia.
Qed.

(** A fetch that returns an error returns no notification, and the request
    that failed is its last. *)
Lemma fetchLoop_failure (fuel : nat) :
  forall opts all st ns err st',
    fetchLoop E fuel opts all st = Some ((ns, Some err), st') ->
    exists pages last,
      Failing E (List.length (trace st)) opts pages last err /\
      ns = [] /\
      st' = mkState (stdin st)
              (trace st ++ map answered pages
                 ++ [ListCall "runatlantis" "atlantis" last (ListError err)])%list
              (visited st).
Proof.
  induction fuel as [|fuel IH]; intros opts all st ns err st' H; [discriminate|].
  cbn [fetchLoop] in H.
  destruct (ListRepositoryNotifications E _ _ _ opts) as [page np|e] eqn:Hres.
  - destruct (Z.eqb np 0) eqn:Hnp; [discriminate|].
    apply Z.eqb_neq in Hnp. apply IH in H as (pages & last & Hp & -> & ->).
    exists ({| request := opts; items := page; next := np |} :: pages), last.
    cbn [emit snd trace stdin visited] in *.
    rewrite length_app, Nat.add_comm in Hp. cbn [List.length Nat.add] in Hp.
    split; [now constructor|]. split; [reflexivity|].
    cbn [map]. now rewrite <- !app_assoc.
  - injection H as <- <- <-. exists [], opts.
    split; [now constructor|]. split; reflexivity.
Qed.

(** When the server fails after [n] pages, the fetch fails with [n + 1]
    requests, and has not returned with fewer. *)
Lemma fetchLoop_fails (pages : list Answer) :
  forall k opts last err, Failing E k opts pages last err ->
  forall fuel all st, k = List.length (trace st) ->
    (List.length pages < fuel ->
     fetchLoop E fuel opts all st
     = Some (([], Some err),
             mkState (stdin st)
               (trace st ++ map answered pages
                  ++ [ListCall "runatlantis" "atlantis" last (ListError err)])%list
               (visited st))) /\
    (fuel <= List.length pages -> fetchLoop E fuel opts all st = None).
Proof.
  induction 1 as [k opts err Hres | k opts ns np rest last err Hres Hnp Hrest IH];
    intros fuel all st ->.
  - split; intros Hf.
    + destruct fuel as [|fuel]; [cbn in Hf; lia|].
      cbn [fetchLoop]. rewrite Hres. reflexivity.
    + cbn in Hf. now replace fuel with 0 by lia.
  - split; intros Hf.
    + destruct fuel as [|fuel]; [cbn in Hf; lia|].
      rewrite (fetchLoop_next _ _ _ _ _ _ Hres Hnp).
      cbn [List.length] in Hf.
      use_IH IH fuel. rewrite IHok by lia.
      cbn. now rewrite <- !app_assoc.
    + destruct fuel as [|fuel]; [reflexivity|].
      rewrite (fetchLoop_next _ _ _ _ _ _ Hres Hnp).
      cbn [List.length] in Hf.
      use_IH IH fuel. apply IHnone. lia.
Qed.

End FetchFacts.

(** ** The review loop *)

Section ReviewFacts.
Variable U : UnicodeTables.
Variable E : Environment.

Lemma markAsRead_trace (n : NotificationPtr) (st : State) :
  markAsRead E n st
  = (tt, mkState (stdin st)
           (trace st ++ markEvents E (List.length (trace st)) n)%list
           (visited st)).
Proof.
  unfold markAsRead, markEvents, bind, now, emit, logOutput, Println.
  cbn [fst snd stdin trace visited].
  destruct (MarkThreadRead E _ _); unfold emit; cbn [fst snd stdin trace visited];
    now rewrite <- app_assoc.
Qed.

Lemma confirms_dec (text : string) :
  String.eqb (normalize U text) "y" || String.eqb (normalize U text) "yes" = true
  <-> confirms U text.
Proof. unfold confirms. now rewrite orb_true_iff, !String.eqb_eq. Qed.

(** A turn on a dependency upgrade: no question, one mark request. *)
Lemma review_auto (n : NotificationPtr) (st : State) :
  isRenovate n = true ->
  review U E n st
  = (tt, mkState (stdin st)
           (trace st
              ++ [Stdout ("──────────────────────────────" ++ newline);
                  Stdout ("⚡ Auto Approving: " ++ GetTitle (GetSubject n) ++ newline)]
              ++ markEvents E (List.length (trace st) + 2) n)%list
           (visited st ++ [n])%list).
Proof.
  intros Hren. unfold review, bind, visit, Println, Printf, emit. rewrite Hren.
  rewrite markAsRead_trace. cbn [fst snd stdin trace visited].
  rewrite !length_app. cbn [List.length].
  replace (List.length (trace st) + 1 + 1) with (List.length (trace st) + 2) by lia.
  now rewrite <- !app_assoc.
Qed.

(** A turn on any other notification: it is shown, one line is read, and
    the mark request follows when the line is a yes. *)
Lemma review_manual (n : NotificationPtr) (st : State) :
  isRenovate n = false ->
  review U E n st
  = (tt, mkState (snd (cutAfter (ascii_of_nat 10) (stdin st)))
           (trace st
              ++ rendering E (List.length (trace st)) n
              ++ [Read (fst (cutAfter (ascii_of_nat 10) (stdin st)))]
              ++ (if String.eqb (normalize U (fst (cutAfter (ascii_of_nat 10) (stdin st)))) "y"
                     || String.eqb (normalize U (fst (cutAfter (ascii_of_nat 10) (stdin st)))) "yes"
                  then markEvents E (List.length (trace st) + 8) n
                  else [skipped]))%list
           (visited st ++ [n])%list).
Proof.
  intros Hren.
  unfold review, bind, visit, Println, Printf, emit, now, ReadString, rendering, skipped.
  rewrite Hren. cbn [fst snd stdin trace visited].
  destruct (cutAfter (ascii_of_nat 10) (stdin st)) as [text rest].
  cbn [fst snd stdin trace visited].
  rewrite !length_app. cbn [List.length].
  replace (List.length (trace st) + 1 + 1 + 1 + 1 + 1)
    with (List.length (trace st) + 5) by lia.
  destruct (String.eqb (normalize U text) "y" || String.eqb (normalize U text) "yes").
  - rewrite markAsRead_trace. cbn [fst snd stdin trace visited].
    rewrite !length_app. cbn [List.length].
    replace (List.length (trace st) + 1 + 1 + 1 + 1 + 1 + 1 + 1 + 1)
      with (List.length (trace st) + 8) by lia.
    now rewrite <- !app_assoc.
  - cbn [fst snd stdin trace visited]. now rewrite <- !app_assoc.
Qed.

Lemma review_Reviewed (n : NotificationPtr) (st : State) :
  exists group rest,
    review U E n st
    = (tt, mkState rest (trace st ++ group)%list (visited st ++ [n])%list)
    /\ Reviewed E n group.
Proof.
  destruct (isRenovate n) eqn:Hren.
  - eexists _, _. split; [apply (review_auto _ _ Hren)|].
    now apply reviewed_marked.
  - rewrite (review_manual _ _ Hren).
    destruct (String.eqb _ "y" || String.eqb _ "yes").
    + eexists _, _. split; [reflexivity|].
      rewrite (app_assoc (rendering _ _ _)). now apply reviewed_marked.
    + eexists _, _. split; [reflexivity|]. now apply reviewed_skipped.
Qed.

Lemma firstn_succ {A : Type} (d : A) (l : list A) (i : nat) :
  i < List.length l -> firstn (S i) l = (firstn i l ++ [nth i l d])%list.
Proof.
  revert i. induction l as [|x l IH]; intros i Hi; [cbn in Hi; lia|].
  destruct i as [|i]; [reflexivity|].
  cbn [firstn nth app]. f_equal. apply IH. cbn in Hi. lia.
Qed.

(** The loop takes the notifications from the last index down to the first
    and leaves one group of events for each. *)
Lemma reviewLoop_groups (notifications : list NotificationPtr) (k : nat) :
  k <= List.length notifications ->
  forall st, exists groups rest,
    reviewLoop U E k notifications st
    = (tt, mkState rest (trace st ++ concat groups)%list
             (visited st ++ rev (firstn k notifications))%list)
    /\ Forall2 (Reviewed E) (rev (firstn k notifications)) groups.
Proof.
  induction k as [|i IH]; intros Hk st.
  - exists [], (stdin st). cbn. rewrite !app_nil_r. split; [now destruct st | constructor].
  - cbn [reviewLoop]. unfold bind at 1.
    destruct (review_Reviewed (nth i notifications None) st) as (g & rest1 & -> & Hg).
    destruct (IH ltac:(lia) (mkState rest1 (trace st ++ g)%list
                               (visited st ++ [nth i notifications None])%list))
      as (groups & rest & -> & Hgroups).
    exists (g :: groups), rest. cbn [stdin trace visited concat].
    rewrite (firstn_succ (None : NotificationPtr)) by lia. rewrite rev_app_distr. cbn [rev app].
    split; [now rewrite <- !app_assoc | now constructor].
Qed.

End ReviewFacts.

(** ** [main] *)

Lemma markCalls_app (a b : list Event) :
  markCalls (a ++ b) = (markCalls a ++ markCalls b)%list.
Proof. apply flat_map_app. Qed.

Lemma reads_app (a b : list Event) : reads (a ++ b) = (reads a ++ reads b)%list.
Proof. apply flat_map_app. Qed.

Lemma markCalls_terminal (evs : list Event) :
  forallb terminal evs = true -> markCalls evs = [].
Proof.
  induction evs as [|e evs IH]; [reflexivity|].
  cbn [forallb]. intros H. apply andb_true_iff in H as [He Hevs].
  destruct e; try discriminate; cbn; auto.
Qed.

Lemma markCalls_answered (pages : list Answer) : markCalls (map answered pages) = [].
Proof. induction pages as [|p pages IH]; [reflexivity | exact IH]. Qed.

Lemma reads_answered (pages : list Answer) : reads (map answered pages) = [].
Proof. induction pages as [|p pages IH]; [reflexivity | exact IH]. Qed.

Lemma failedList_answered (pages : list Answer) :
  existsb failedList (map answered pages) = false.
Proof. induction pages as [|p pages IH]; [reflexivity | exact IH]. Qed.

Lemma failedList_terminal (evs : list Event) :
  forallb terminal evs = true -> existsb failedList evs = false.
Proof.
  induction evs as [|e evs IH]; [reflexivity|].
  cbn [forallb]. intros H. apply andb_true_iff in H as [He Hevs].
  destruct e; try discriminate; cbn; auto.
Qed.

Lemma Reviewed_markCalls (E : Environment) (n : NotificationPtr) (g : list Event) :
  Reviewed E n g -> markCalls g = [] \/ markCalls g = [GetID n].
Proof.
  intros [shown Hs | shown k Hs].
  - left. now apply markCalls_terminal.
  - right. rewrite markCalls_app, (markCalls_terminal _ Hs).
    unfold markEvents. cbn. now destruct (MarkThreadRead E k (GetID n)).
Qed.

Lemma Reviewed_failedList (E : Environment) (n : NotificationPtr) (g : list Event) :
  Reviewed E n g -> existsb failedList g = false.
Proof.
  intros [shown Hs | shown k Hs].
  - now apply failedList_terminal.
  - rewrite existsb_app, (failedList_terminal _ Hs).
    unfold markEvents. cbn. now destruct (MarkThreadRead E k (GetID n)).
Qed.

Lemma groups_markCalls (E : Environment) (ns : list NotificationPtr)
      (groups : list (list Event)) :
  Forall2 (Reviewed E) ns groups ->
  Subseq (markCalls (concat groups)) (map GetID ns).
Proof.
  induction 1 as [|n g ns groups Hg _ IH]; [constructor|].
  cbn [concat map]. rewrite markCalls_app.
  destruct (Reviewed_markCalls _ _ _ Hg) as [-> | ->]; cbn [app]; now constructor.
Qed.

Lemma groups_failedList (E : Environment) (ns : list NotificationPtr)
      (groups : list (list Event)) :
  Forall2 (Reviewed E) ns groups -> existsb failedList (concat groups) = false.
Proof.
  induction 1 as [|n g ns groups Hg _ IH]; [reflexivity|].
  cbn [concat]. now rewrite existsb_app, (Reviewed_failedList _ _ _ Hg), IH.
Qed.

Section RunFacts.
Variable U : UnicodeTables.
Variable P : Sort.Pdqsort.
Variable E : Environment.

Lemma token_given : GITHUB_TOKEN E <> "" -> String.eqb (GITHUB_TOKEN E) "" = false.
Proof. intros H. now apply String.eqb_neq. Qed.

Lemma run_no_token (fuel : nat) :
  GITHUB_TOKEN E = "" ->
  run U P E fuel
  = Some (Exited 1,
          mkState (Stdin E) [Log "GITHUB_TOKEN environment variable is required"] []).
Proof. intros H. unfold run, main. now rewrite H. Qed.

Lemma run_out_of_fuel (fuel : nat) :
  GITHUB_TOKEN E <> "" ->
  fetchAllUnread E fuel (start E) = None ->
  run U P E fuel = None.
Proof. intros Ht H. unfold run, main. now rewrite (token_given Ht), H. Qed.

Lemma run_fetch_error (fuel : nat) ns err st1 :
  GITHUB_TOKEN E <> "" ->
  fetchAllUnread E fuel (start E) = Some ((ns, Some err), st1) ->
  run U P E fuel
  = Some (Exited 1,
          mkState (stdin st1)
            (trace st1 ++ [Log ("error fetching notifications: " ++ err)])%list
            (visited st1)).
Proof. intros Ht H. unfold run, main. now rewrite (token_given Ht), H. Qed.

Lemma run_nothing (fuel : nat) st1 :
  GITHUB_TOKEN E <> "" ->
  fetchAllUnread E fuel (start E) = Some (([], None), st1) ->
  run U P E fuel
  = Some (Returned,
          mkState (stdin st1)
            (trace st1 ++ [Stdout ("No unread notifications." ++ newline)])%list
            (visited st1)).
Proof. intros Ht H. unfold run, main. now rewrite (token_given Ht), H. Qed.

(** A run that fetched something reviews every notification, from the end
    of the sorted slice to its start, and then reports that it is done. *)
Lemma run_reviewed (fuel : nat) all st1 :
  GITHUB_TOKEN E <> "" ->
  fetchAllUnread E fuel (start E) = Some ((all, None), st1) ->
  all <> [] ->
  exists groups rest,
    run U P E fuel
    = Some (Returned,
            mkState rest (trace st1 ++ concat groups ++ [done])%list
              (rev (sortNotifications P all)))
    /\ Forall2 (Reviewed E) (rev (sortNotifications P all)) groups.
Proof.
  intros Ht H Hall. unfold run, main. rewrite (token_given Ht), H.
  assert (Hvis : visited st1 = []).
  { apply fetchLoop_success in H as (pages & _ & _ & ->). reflexivity. }
  destruct all as [|n all]; [contradiction|]. cbn [List.length Nat.eqb].
  rewrite sortNotifications_length. cbn [List.length Nat.eqb].
  set (sorted := sortNotifications P (n :: all)).
  assert (Hlen : List.length sorted = S (List.length all))
    by apply sortNotifications_length.
  rewrite <- Hlen.
  destruct (reviewLoop_groups U E sorted (List.length sorted) (le_n _) st1)
    as (groups & rest & Hloop & Hgroups).
  rewrite firstn_all in Hloop, Hgroups.
  exists groups, rest. split; [|exact Hgroups].
  unfold bind. rewrite Hloop. unfold Println, emit, done.
  cbn [fst snd stdin trace visited]. rewrite Hvis.
  now rewrite <- app_assoc.
Qed.

End RunFacts.

(** ** The order of the review *)

(** C1, as the code has it: the reviewer takes the notifications newest
    first.  Of any two notifications, the one processed earlier was updated
    at the same time as the other or later; every fetched notification is
    processed once. *)
Theorem review_order_newest_first
        (U : UnicodeTables) (P : Sort.Pdqsort) (E : Environment)
        (fuel : nat) (all : list NotificationPtr) (st1 : State) :
  GITHUB_TOKEN E <> "" ->
  fetchAllUnread E fuel (start E) = Some ((all, None), st1) ->
  exists st2,
    run U P E fuel = Some (Returned, st2) /\
    Permutation all (visited st2) /\
    StronglySorted (fun a b => notNewer b a) (visited st2).
Proof.
  intros Ht H. destruct all as [|n all].
  - rewrite (run_nothing U P E fuel st1 Ht H). eexists. split; [reflexivity|].
    apply fetchLoop_success in H as (pages & _ & _ & ->).
    cbn [visited start]. split; constructor.
  - destruct (run_reviewed U P E fuel (n :: all) st1 Ht H ltac:(discriminate))
      as (groups & rest & -> & _).
    eexists. split; [reflexivity|]. cbn [visited]. split.
    + rewrite <- Permutation_rev. apply sortNotifications_perm.
    + apply StronglySorted_rev, sortNotifications_StronglySorted.
Qed.

Lemma review_order_newest_first_witness :
  exists st2,
    run asciiTables Sort.insertionPdqsort twoUnread 1 = Some (Returned, st2) /\
    Permutation [notification "1" "older" 1%Z; notification "2" "newer" 2%Z] (visited st2) /\
    StronglySorted (fun a b => notNewer b a) (visited st2).
Proof.
  eapply (review_order_newest_first asciiTables Sort.insertionPdqsort twoUnread 1).
  - discriminate.
  - reflexivity.
Defined.

(** C1 as stated fails: of two unread notifications the newer one is
    processed first. *)
Lemma review_order_not_oldest_first :
  match run asciiTables Sort.insertionPdqsort twoUnread 1 with
  | Some (_, st) =>
      visited st = [notification "2" "newer" 2%Z; notification "1" "older" 1%Z]
      /\ ~ StronglySorted notNewer (visited st)
  | None => False
  end.
Proof.
  set (r := run asciiTables Sort.insertionPdqsort twoUnread 1).
  vm_compute in r. subst r. cbv iota beta. cbn [visited].
  split; [reflexivity|].
  intros H. inversion H as [|? ? _ Hall]; subst.
  inversion Hall as [|? ? Hle _]; subst.
  unfold notNewer in Hle. cbn in Hle. lia.
Qed.

(** ** Fetch errors *)

Lemma In_failedList (ev : Event) (evs : list Event) :
  In ev evs -> failedList ev = true -> existsb failedList evs = true.
Proof. intros Hin Hf. apply existsb_exists. now exists ev. Qed.

(** C6: a run in which a list request fails ends in [log.Fatalf] with exit
    status 1; the fetch has returned the error and no notification, nothing
    was reviewed, no line was read and no thread was marked.  Such a run
    does end: when the server fails after some pages, the run is over one
    request later. *)
Theorem fetch_failure_aborts
        (U : UnicodeTables) (P : Sort.Pdqsort) (E : Environment) :
  (forall fuel out st,
      run U P E fuel = Some (out, st) ->
      (exists ev, In ev (trace st) /\ failedList ev = true) ->
      out = Exited 1 /\
      visited st = [] /\
      markCalls (trace st) = [] /\
      reads (trace st) = [] /\
      exists err st1,
        fetchAllUnread E fuel (start E) = Some (([], Some err), st1) /\
        trace st = (trace st1 ++ [Log ("error fetching notifications: " ++ err)])%list) /\
  (forall pages last err fuel,
      GITHUB_TOKEN E <> "" ->
      Failing E 0 initialOpts pages last err ->
      List.length pages < fuel ->
      run U P E fuel
      = Some (Exited 1,
              mkState (Stdin E)
                (map answered pages
                   ++ [ListCall "runatlantis" "atlantis" last (ListError err);
                       Log ("error fetching notifications: " ++ err)])%list
                [])).
Proof.
  split.
  - intros fuel out st Hrun (ev & Hin & Hev).
    pose proof (In_failedList _ _ Hin Hev) as Hex. clear ev Hin Hev.
    destruct (String.eqb (GITHUB_TOKEN E) "") eqn:Ht.
    { apply String.eqb_eq in Ht. rewrite (run_no_token U P E fuel Ht) in Hrun.
      injection Hrun as <- <-. discriminate Hex. }
    apply String.eqb_neq in Ht.
    destruct (fetchAllUnread E fuel (start E)) as [[[ns [err|]] st1]|] eqn:Hfetch.
    + rewrite (run_fetch_error U P E fuel ns err st1 Ht Hfetch) in Hrun.
      injection Hrun as <- <-.
      pose proof Hfetch as Hf.
      apply fetchLoop_failure in Hf as (pages & last & _ & -> & ->).
      cbn [trace visited stdin start app].
      repeat split.
      * rewrite !markCalls_app, markCalls_answered. reflexivity.
      * rewrite !reads_app, reads_answered. reflexivity.
      * eexists _, _. split; reflexivity.
    + exfalso. pose proof Hfetch as Hf.
      apply fetchLoop_success in Hf as (pages & _ & -> & Hst1).
      cbn [start trace stdin visited app] in Hst1.
      destruct (concat (map items pages)) as [|n all] eqn:Hall.
      * rewrite (run_nothing U P E fuel st1 Ht Hfetch) in Hrun.
        injection Hrun as <- <-. subst st1. cbn [trace] in Hex.
        rewrite existsb_app, failedList_answered in Hex. discriminate Hex.
      * destruct (run_reviewed U P E fuel (n :: all) st1 Ht Hfetch ltac:(discriminate))
          as (groups & rest & Hr & Hg).
        rewrite Hr in Hrun. injection Hrun as <- <-. subst st1. cbn [trace] in Hex.
        rewrite !existsb_app, failedList_answered, (groups_failedList _ _ _ Hg) in Hex.
        discriminate Hex.
    + rewrite (run_out_of_fuel U P E fuel Ht Hfetch) in Hrun. discriminate.
  - intros pages last err fuel Ht Hfail Hfuel.
    destruct (fetchLoop_fails E pages 0 initialOpts last err Hfail fuel [] (start E) eq_refl)
      as [Hok _].
    specialize (Hok Hfuel).
    rewrite (run_fetch_error U P E fuel [] err _ Ht Hok).
    cbn [stdin trace visited start app]. now rewrite <- app_assoc.
Qed.

Lemma fetch_failure_aborts_witness :
  run asciiTables Sort.insertionPdqsort
    (scripted [ListOK [notification "1" "a" 1%Z] 2; ListError "500"] None "") 2
  = Some (Exited 1,
          mkState ""
            [ListCall "runatlantis" "atlantis" initialOpts
               (ListOK [notification "1" "a" 1%Z] 2);
             ListCall "runatlantis" "atlantis" (setPage initialOpts 2) (ListError "500");
             Log "error fetching notifications: 500"]
            []).
Proof.
  refine (proj2 (fetch_failure_aborts asciiTables Sort.insertionPdqsort
                   (scripted [ListOK [notification "1" "a" 1%Z] 2; ListError "500"] None ""))
            [{| request := initialOpts; items := [notification "1" "a" 1%Z]; next := 2 |}]
            (setPage initialOpts 2) "500" 2 _ _ _).
  - discriminate.
  - apply failing_later; [reflexivity | discriminate |].
    apply failing_now. reflexivity.
  - cbn. lia.
Defined.

(** ** Pagination *)

(** In a complete pagination the page that announces no next page is the
    last one, and no other. *)
Lemma Pagination_last (E : Environment) k opts pages :
  Pagination E k opts pages ->
  forall i p, nth_error pages i = Some p ->
              (next p = 0%Z <-> S i = List.length pages).
Proof.
  induction 1 as [k opts ns Hres | k opts ns np rest Hres Hnp Hrest IH]; intros i p Hp.
  - destruct i as [|i]; cbn in Hp.
    + injection Hp as <-. cbn. tauto.
    + now destruct i.
  - destruct i as [|i]; cbn in Hp.
    + injection Hp as <-. cbn. split; [contradiction|].
      intros Hlen. inversion Hrest; subst; discriminate.
    + cbn [List.length]. rewrite (IH i p Hp). lia.
Qed.

Lemma length_concat_items (pages : list Answer) :
  List.length (concat (map items pages))
  = list_sum (map (fun p => List.length (items p)) pages).
Proof.
  induction pages as [|p pages IH]; [reflexivity|].
  cbn [map concat list_sum]. now rewrite length_app, IH.
Qed.

(** C7: a fetch that succeeds returns the notifications of the pages it was
    answered, joined in the order of the pages, as many as the pages hold
    together; the page that carried [NextPage = 0] is the last one it asked
    for and no earlier page carried it.  And the loop ends: when the server
    answers a pagination of [n] pages, the fetch returns after [n] requests
    and has not returned after fewer. *)
Theorem fetch_concatenates_pages (E : Environment) :
  (forall fuel st all st',
      fetchAllUnread E fuel st = Some ((all, None), st') ->
      exists pages,
        Pagination E (List.length (trace st)) initialOpts pages /\
        all = concat (map items pages) /\
        List.length all = list_sum (map (fun p => List.length (items p)) pages) /\
        trace st' = (trace st ++ map answered pages)%list /\
        (forall i p, nth_error pages i = Some p ->
                     (next p = 0%Z <-> S i = List.length pages))) /\
  (forall st pages fuel,
      Pagination E (List.length (trace st)) initialOpts pages ->
      (List.length pages <= fuel ->
       fetchAllUnread E fuel st
       = Some ((concat (map items pages), None),
               mkState (stdin st) (trace st ++ map answered pages)%list (visited st))) /\
      (fuel < List.length pages -> fetchAllUnread E fuel st = None)).
Proof.
  split.
  - intros fuel st all st' H.
    apply fetchLoop_success in H as (pages & Hp & -> & ->).
    exists pages. cbn [app trace].
    repeat split; try exact Hp; try apply length_concat_items;
      apply (Pagination_last _ _ _ _ Hp); assumption.
  - intros st pages fuel Hp.
    exact (fetchLoop_complete E pages _ _ Hp fuel [] st eq_refl).
Qed.

Lemma fetch_concatenates_pages_witness :
  fetchAllUnread
    (scripted [ListOK [notification "1" "a" 1%Z; notification "2" "b" 2%Z] 2;
               ListOK [notification "3" "c" 3%Z] 0] None "")
    2 (mkState "" [] [])
  = Some (([notification "1" "a" 1%Z; notification "2" "b" 2%Z; notification "3" "c" 3%Z],
           None),
          mkState ""
            [ListCall "runatlantis" "atlantis" initialOpts
               (ListOK [notification "1" "a" 1%Z; notification "2" "b" 2%Z] 2);
             ListCall "runatlantis" "atlantis" (setPage initialOpts 2)
               (ListOK [notification "3" "c" 3%Z] 0)]
            []).
Proof.
  refine (proj1 (proj2 (fetch_concatenates_pages _) (mkState "" [] [])
           [{| request := initialOpts;
               items := [notification "1" "a" 1%Z; notification "2" "b" 2%Z];
               next := 2 |};
            {| request := setPage initialOpts 2;
               items := [notification "3" "c" 3%Z];
               next := 0 |}] 2 _) _).
  - apply pagination_next; [reflexivity | discriminate |].
    apply pagination_last. reflexivity.
  - cbn. lia.
Defined.

(** ** The question and its answer *)

Lemma markCalls_rendering (E : Environment) k n : markCalls (rendering E k n) = [].
Proof. reflexivity. Qed.

Lemma markCalls_markEvents (E : Environment) k n : markCalls (markEvents E k n) = [GetID n].
Proof. unfold markEvents. cbn. now destruct (MarkThreadRead E k (GetID n)). Qed.

Lemma reads_markEvents (E : Environment) k n : reads (markEvents E k n) = [].
Proof. unfold markEvents. cbn. now destruct (MarkThreadRead E k (GetID n)). Qed.

(** [bufio.Reader.ReadString] on a line feed hands out the first line. *)
Lemma cutAfter_FirstLine (s : string) :
  FirstLine s (fst (cutAfter (ascii_of_nat 10) s)) (snd (cutAfter (ascii_of_nat 10) s)).
Proof.
  induction s as [|c s IH].
  - right. repeat split.
  - cbn [cutAfter]. destruct (Ascii.eqb c (ascii_of_nat 10)) eqn:Hc.
    + apply Ascii.eqb_eq in Hc. subst c. left. exists "". repeat split.
    + destruct (cutAfter (ascii_of_nat 10) s) as [text rest]. cbn [fst snd] in *.
      destruct IH as [(line & Hline & -> & ->) | (Hone & -> & ->)].
      * left. exists (String c line). split; [|split; reflexivity].
        unfold oneLine in *. cbn [forallb_string]. now rewrite Hc, Hline.
      * right. split; [|split; reflexivity].
        unfold oneLine in *. cbn [forallb_string]. now rewrite Hc, Hone.
Qed.

Lemma oneLine_app (a b : string) : oneLine (a ++ b) = oneLine a && oneLine b.
Proof.
  unfold oneLine. induction a as [|c a IH]; cbn [append forallb_string]; [reflexivity|].
  now rewrite IH, andb_assoc.
Qed.

Lemma first_line_feed (a a' b b' : string) :
  oneLine a = true -> oneLine a' = true ->
  (a ++ newline) ++ b = (a' ++ newline) ++ b' ->
  a = a' /\ b = b'.
Proof.
  revert a'. induction a as [|c a IH]; intros a' Ha Ha' Heq.
  - destruct a' as [|c' a']; cbn in Heq.
    + injection Heq as ->. now split.
    + injection Heq as <- _. discriminate Ha'.
  - destruct a' as [|c' a']; cbn in Heq.
    + injection Heq as -> _. discriminate Ha.
    + injection Heq as <- Heq.
      unfold oneLine in Ha, Ha'. cbn [forallb_string] in Ha, Ha'.
      apply andb_true_iff in Ha as [_ Ha]. apply andb_true_iff in Ha' as [_ Ha'].
      destruct (IH a' Ha Ha' Heq) as [-> ->]. now split.
Qed.

(** The first line of an input and what follows it are determined by the
    input. *)
Lemma FirstLine_unique (input text rest text' rest' : string) :
  FirstLine input text rest -> FirstLine input text' rest' ->
  text = text' /\ rest = rest'.
Proof.
  intros [(line & Hl & -> & ->) | (Hone & -> & ->)]
         [(line' & Hl' & -> & Heq) | (Hone' & -> & ->)].
  - destruct (first_line_feed _ _ _ _ Hl Hl' Heq) as [-> ->]. now split.
  - rewrite !oneLine_app in Hone'. cbn in Hone'.
    rewrite andb_false_r in Hone'. discriminate Hone'.
  - rewrite Heq, !oneLine_app in Hone. cbn in Hone.
    rewrite andb_false_r in Hone. discriminate Hone.
  - now split.
Qed.

(** C8: for a notification that is not approved on its own the reviewer
    reads one line: the text it reads is the first line of what waits on
    standard input, up to its line feed and with it, and what follows that
    line feed is left for the next question (without a line feed it reads
    all there is).  The text goes through [ToLower] and [TrimSpace]; the
    thread is marked as read exactly when the outcome is [y] or [yes].
    After any other line, the empty one too, the turn ends with the skip
    message and without a request to the remote API.  [Y], [ yes ] and [YES]
    are a yes; the empty line, [n] and [maybe] are not. *)
Theorem review_confirmation
        (U : UnicodeTables) (E : Environment) (n : NotificationPtr) (st : State) :
  isRenovate n = false ->
  let text := fst (cutAfter (ascii_of_nat 10) (stdin st)) in
  let st' := snd (review U E n st) in
  exists evs,
    trace st' = (trace st ++ evs)%list /\
    stdin st' = snd (cutAfter (ascii_of_nat 10) (stdin st)) /\
    FirstLine (stdin st) text (stdin st') /\
    reads evs = [text] /\
    (markCalls evs = [GetID n] <-> confirms U text) /\
    (~ confirms U text ->
     markCalls evs = [] /\ remoteCalls evs = [] /\ last evs done = skipped) /\
    (confirms U "Y" /\ confirms U " yes " /\ confirms U "YES" /\
     confirms U ("y" ++ newline) /\
     ~ confirms U "" /\ ~ confirms U "n" /\ ~ confirms U "maybe" /\
     ~ confirms U newline).
Proof.
  intros Hren text st'. subst st'. rewrite (review_manual U E n st Hren).
  fold text. cbn [snd trace stdin].
  eexists. split; [reflexivity|]. split; [reflexivity|].
  split; [apply cutAfter_FirstLine|].
  pose proof (confirms_dec U text) as Hdec.
  destruct (String.eqb (normalize U text) "y" || String.eqb (normalize U text) "yes").
  - assert (Hc : confirms U text) by now apply Hdec.
    split; [now rewrite !reads_app, reads_markEvents|].
    rewrite !markCalls_app, markCalls_rendering, markCalls_markEvents.
    split; [tauto|]. split; [contradiction|].
    unfold confirms; repeat split; try (now left); try (now right);
      intros [H|H]; discriminate H.
  - assert (Hc : ~ confirms U text) by (intros H; apply Hdec in H; discriminate H).
    split; [reflexivity|].
    rewrite !markCalls_app, markCalls_rendering.
    split; [split; [discriminate | contradiction]|].
    split; [intros _; repeat split|].
    unfold confirms; repeat split; try (now left); try (now right);
      intros [H|H]; discriminate H.
Qed.

Lemma review_confirmation_witness :
  exists evs,
    trace (snd (review asciiTables (scripted [] None "")
                  (notification "7" "Add new feature" 1%Z)
                  (mkState (" YES " ++ newline ++ "n" ++ newline) [] [])))
    = evs /\
    stdin (snd (review asciiTables (scripted [] None "")
                  (notification "7" "Add new feature" 1%Z)
                  (mkState (" YES " ++ newline ++ "n" ++ newline) [] [])))
    = "n" ++ newline /\
    reads evs = [" YES " ++ newline] /\
    markCalls evs = ["7"].
Proof.
  destruct (review_confirmation asciiTables (scripted [] None "")
              (notification "7" "Add new feature" 1%Z)
              (mkState (" YES " ++ newline ++ "n" ++ newline) [] []) eq_refl)
    as (evs & Htrace & Hstdin & _ & Hreads & Hmark & _).
  exists evs. split; [exact Htrace|]. split; [exact Hstdin|].
  split; [exact Hreads|]. apply Hmark. right. reflexivity.
Defined.

(** ** Failures of the mark request *)

(** C9: a mark request that fails leaves a warning in the log and nothing
    else; the request is made once.  Whatever the mark requests answer, a
    run that fetched notifications returns normally: it takes a turn on
    every notification, asks at most one mark request for each, and its last
    output is the completion message. *)
Theorem mark_failure_not_fatal
        (U : UnicodeTables) (P : Sort.Pdqsort) (E : Environment) :
  (forall n st err,
      MarkThreadRead E (List.length (trace st)) (GetID n) = Some err ->
      markAsRead E n st
      = (tt, mkState (stdin st)
               (trace st ++ [MarkCall (GetID n) (Some err);
                             Log ("⚠️  Failed to mark as read: " ++ err ++ newline)])%list
               (visited st))) /\
  (forall fuel all st1,
      GITHUB_TOKEN E <> "" ->
      fetchAllUnread E fuel (start E) = Some ((all, None), st1) ->
      all <> [] ->
      exists groups st2,
        run U P E fuel = Some (Returned, st2) /\
        trace st2 = (trace st1 ++ concat groups ++ [done])%list /\
        Forall2 (Reviewed E) (visited st2) groups /\
        Permutation all (visited st2) /\
        Subseq (markCalls (trace st2)) (map GetID (visited st2)) /\
        last (trace st2) skipped = done).
Proof.
  split.
  - intros n st err Herr. rewrite markAsRead_trace. unfold markEvents.
    now rewrite Herr.
  - intros fuel all st1 Ht Hfetch Hall.
    destruct (run_reviewed U P E fuel all st1 Ht Hfetch Hall)
      as (groups & rest & Hrun & Hgroups).
    eexists groups, _. split; [exact Hrun|]. cbn [trace visited].
    split; [reflexivity|]. split; [exact Hgroups|].
    split; [rewrite <- Permutation_rev; apply sortNotifications_perm|].
    split.
    + apply fetchLoop_success in Hfetch as (pages & _ & _ & ->).
      cbn [trace start app].
      rewrite !markCalls_app, markCalls_answered. cbn [app].
      change (markCalls [done]) with (@nil string). rewrite app_nil_r.
      exact (groups_markCalls E _ _ Hgroups).
    + rewrite !app_assoc. apply last_last.
Qed.

Lemma mark_failure_not_fatal_witness :
  exists groups st2,
    run asciiTables Sort.insertionPdqsort
      (scripted [ListOK [notification "1" "chore(deps): bump lodash" 1%Z;
                         notification "2" "Add new feature" 2%Z] 0]
         (Some "503") ("y" ++ newline)) 1
    = Some (Returned, st2) /\
    markCalls (trace st2) = ["2"; "1"] /\
    Forall2 (Reviewed
               (scripted [ListOK [notification "1" "chore(deps): bump lodash" 1%Z;
                                  notification "2" "Add new feature" 2%Z] 0]
                  (Some "503") ("y" ++ newline)))
      (visited st2) groups /\
    last (trace st2) skipped = done.
Proof.
  destruct (proj2 (mark_failure_not_fatal asciiTables Sort.insertionPdqsort
              (scripted [ListOK [notification "1" "chore(deps): bump lodash" 1%Z;
                                 notification "2" "Add new feature" 2%Z] 0]
                 (Some "503") ("y" ++ newline)))
              1 _ _ ltac:(discriminate) eq_refl ltac:(discriminate))
    as (groups & st2 & Hrun & _ & Hgroups & _ & _ & Hlast).
  exists groups, st2. split; [exact Hrun|].
  split; [|split; assumption].
  vm_compute in Hrun. injection Hrun as <-. reflexivity.
Defined.

(** * Further properties of the program *)

(** ** [uiURL] on its own results *)

Lemma uiURL_shape (s : string) :
  uiURL s = s \/ exists rest, uiURL s = "https://github.com/" ++ rest.
Proof.
  destruct (HasPrefix s prefix) eqn:Hp.
  - apply prefix_iff in Hp as [path ->]. rewrite uiURL_parts.
    destruct (Split_slash path) as [|owner [|repo [|kind more]]]; auto.
    right. destruct (recognized kind); [destruct more as [|id more]|].
    + eexists. reflexivity.
    + eexists. apply homepage_deep.
    + eexists. reflexivity.
  - left. unfold uiURL. now rewrite Hp.
Qed.

(** X1: the translator changes a URL at most once.  Its result is the input
    itself or a URL under [https://github.com/], and translating the result
    again gives the result back. *)
Theorem uiURL_idempotent (s : string) :
  uiURL (uiURL s) = uiURL s /\
  (uiURL s = s \/ exists rest, uiURL s = "https://github.com/" ++ rest).
Proof.
  split; [|apply uiURL_shape].
  destruct (uiURL_shape s) as [H | [rest H]]; rewrite H; [exact H|].
  unfold uiURL at 1.
  replace (HasPrefix ("https://github.com/" ++ rest) prefix) with false by reflexivity.
  reflexivity.
Qed.

(** ** [isRenovate] on short and missing titles *)

Lemma HasPrefix_length (s p : string) :
  HasPrefix s p = true -> String.length p <= String.length s.
Proof.
  intros H. apply prefix_iff in H as [r ->]. rewrite string_length_app. lia.
Qed.

(** X2: a notification whose title has fewer than 9 bytes is never approved
    automatically; a nil notification, a notification without subject and a
    subject without title count as the empty title. *)
Theorem isRenovate_short_title :
  (forall n : NotificationPtr,
      String.length (GetTitle (GetSubject n)) < 9 -> isRenovate n = false) /\
  isRenovate None = false /\
  (forall n : NotificationPtr, GetSubject n = None -> isRenovate n = false) /\
  (forall id repo url type updated,
      isRenovate (Some {| ID := id; Repository_ := repo;
                          Subject := Some {| Title := None; URL := url; Type_ := type |};
                          UpdatedAt := updated |}) = false).
Proof.
  assert (Hshort : forall n : NotificationPtr,
             String.length (GetTitle (GetSubject n)) < 9 -> isRenovate n = false).
  { intros n Hlen. unfold isRenovate.
    destruct (HasPrefix _ "chore(deps)") eqn:H1.
    { apply HasPrefix_length in H1. cbn in H1. lia. }
    destruct (HasPrefix _ "fix(deps)") eqn:H2; [|reflexivity].
    apply HasPrefix_length in H2. cbn in H2. lia. }
  split; [exact Hshort|]. split; [reflexivity|]. split; [|reflexivity].
  intros n Hn. apply Hshort. rewrite Hn. cbn. lia.
Qed.

Lemma isRenovate_short_title_witness :
  isRenovate (notification "1" "fix(dep)" 1%Z) = false.
Proof.
  apply (proj1 isRenovate_short_title). cbn. lia.
Defined.

(** ** Fuel *)

Section FuelFacts.
Variable E : Environment.

Lemma fetchLoop_more_fuel (fuel : nat) :
  forall extra opts all st r,
    fetchLoop E fuel opts all st = Some r ->
    fetchLoop E (fuel + extra) opts all st = Some r.
Proof.
  induction fuel as [|fuel IH]; intros extra opts all st r H; [discriminate|].
  cbn [Nat.add fetchLoop] in *.
  destruct (ListRepositoryNotifications E _ _ _ opts) as [ns np|err]; [|exact H].
  destruct (Z.eqb np 0); [exact H|]. now apply IH.
Qed.

(** A server that announces a next page with every answer keeps the loop
    going. *)
Lemma fetchLoop_endless (fuel : nat) :
  (forall k opts, exists ns np,
      ListRepositoryNotifications E k "runatlantis" "atlantis" opts = ListOK ns np
      /\ np <> 0%Z) ->
  forall opts all st, fetchLoop E fuel opts all st = None.
Proof.
  intros Hmore. induction fuel as [|fuel IH]; intros opts all st; [reflexivity|].
  cbn [fetchLoop].
  destruct (Hmore (List.length (trace st)) opts) as (ns & np & -> & Hnp).
  apply Z.eqb_neq in Hnp. rewrite Hnp. apply IH.
Qed.

End FuelFacts.

(** A run that has ended with some fuel ends in the same way with any
    more fuel: the fuel bounds the number of list requests and does nothing
    else. *)
Theorem run_more_fuel
        (U : UnicodeTables) (P : Sort.Pdqsort) (E : Environment)
        (fuel fuel' : nat) (r : Outcome * State) :
  run U P E fuel = Some r ->
  fuel <= fuel' ->
  run U P E fuel' = Some r.
Proof.
  intros Hrun Hle. replace fuel' with (fuel + (fuel' - fuel)) by lia.
  unfold run, main in *.
  destruct (String.eqb (GITHUB_TOKEN E) ""); [exact Hrun|].
  unfold fetchAllUnread in *.
  destruct (fetchLoop E fuel initialOpts [] (start E)) as [res|] eqn:Hfetch;
    [|discriminate].
  now rewrite (fetchLoop_more_fuel E fuel _ _ _ _ _ Hfetch).
Qed.

Lemma run_more_fuel_witness :
  run asciiTables Sort.insertionPdqsort twoUnread 7
  = run asciiTables Sort.insertionPdqsort twoUnread 1.
Proof.
  destruct (run asciiTables Sort.insertionPdqsort twoUnread 1) as [r|] eqn:Hrun.
  - apply (run_more_fuel asciiTables Sort.insertionPdqsort twoUnread 1 7 r Hrun). lia.
  - discriminate Hrun.
Defined.

(** X3: nothing bounds the pagination.  Against a server that announces a
    next page with every answer the fetch does not return, however many
    requests it is given, and the run never gets to review or to end. *)
Theorem endless_pagination_never_returns
        (U : UnicodeTables) (P : Sort.Pdqsort) (E : Environment) :
  (forall k opts, exists ns np,
      ListRepositoryNotifications E k "runatlantis" "atlantis" opts = ListOK ns np
      /\ np <> 0%Z) ->
  forall fuel,
    (forall st, fetchAllUnread E fuel st = None) /\
    (GITHUB_TOKEN E <> "" -> run U P E fuel = None).
Proof.
  intros Hmore fuel.
  assert (Hfetch : forall st, fetchAllUnread E fuel st = None).
  { intros st. apply fetchLoop_endless, Hmore. }
  split; [exact Hfetch|].
  intros Ht. apply run_out_of_fuel; [exact Ht | apply Hfetch].
Qed.

Lemma endless_pagination_never_returns_witness :
  run asciiTables Sort.insertionPdqsort endless 1000 = None.
Proof.
  apply (endless_pagination_never_returns asciiTables Sort.insertionPdqsort endless).
  - intros k opts. eexists _, _. split; [reflexivity | discriminate].
  - discriminate.
Defined.

(** ** The turns of the review loop *)

Section TurnFacts.
Variable U : UnicodeTables.
Variable E : Environment.

(** The events of one turn on [n], taken at interaction [k] with [input]
    waiting on standard input. *)
Lemma turn_events (st : State) (n : NotificationPtr) :
  exists evs,
    turn U E st n
    = mkState (if isRenovate n then stdin st
               else snd (cutAfter (ascii_of_nat 10) (stdin st)))
        (trace st ++ evs)%list (visited st ++ [n])%list
    /\ existsb isListCall evs = false
    /\ ~ In celebration evs
    /\ reads evs = (if isRenovate n then []
                    else [fst (cutAfter (ascii_of_nat 10) (stdin st))])
    /\ (isRenovate n = true -> markCalls evs = [GetID n])
    /\ (isRenovate n = false ->
        ~ confirms U (fst (cutAfter (ascii_of_nat 10) (stdin st))) ->
        markCalls evs = []).
Proof.
  unfold turn. destruct (isRenovate n) eqn:Hren.
  - rewrite (review_auto U E n st Hren). cbn [snd].
    eexists. split; [reflexivity|].
    unfold markEvents.
    destruct (MarkThreadRead E _ _); cbn [app existsb isListCall orb reads flat_map
                                           markCalls];
      (repeat split; try reflexivity; try discriminate;
       intros Hin; cbn [In] in Hin;
       repeat (destruct Hin as [Hin|Hin]; [discriminate Hin|]); exact Hin).
  - rewrite (review_manual U E n st Hren). cbn [snd].
    set (text := fst (cutAfter (ascii_of_nat 10) (stdin st))).
    pose proof (confirms_dec U text) as Hdec.
    eexists. split; [reflexivity|].
    destruct (String.eqb (normalize U text) "y" || String.eqb (normalize U text) "yes").
    + unfold markEvents, rendering.
      destruct (MarkThreadRead E _ _); cbn [app existsb isListCall orb reads flat_map
                                             markCalls];
        (repeat split; try reflexivity; try discriminate;
         [ intros Hin; cbn [In] in Hin;
           repeat (destruct Hin as [Hin|Hin]; [discriminate Hin|]); exact Hin
         | intros _ Hn; exfalso; apply Hn, Hdec; reflexivity ]).
    + unfold rendering, skipped.
      cbn [app existsb isListCall orb reads flat_map markCalls].
      repeat split; try reflexivity; try discriminate.
      intros Hin; cbn [In] in Hin.
      repeat (destruct Hin as [Hin|Hin]; [discriminate Hin|]); exact Hin.
Qed.

Lemma turns_events (ns : list NotificationPtr) :
  forall st, exists evs,
    trace (turns U E ns st) = (trace st ++ evs)%list
    /\ visited (turns U E ns st) = (visited st ++ ns)%list
    /\ existsb isListCall evs = false
    /\ ~ In celebration evs
    /\ List.length (reads evs) = List.length (filter (fun n => negb (isRenovate n)) ns)
    /\ (forall n, In n ns -> isRenovate n = true -> In (GetID n) (markCalls evs)).
Proof.
  induction ns as [|n ns IH]; intros st.
  - exists []. cbn. rewrite !app_nil_r. repeat split; auto; contradiction.
  - cbn [turns fold_left].
    destruct (turn_events st n) as (e1 & Hturn & Hl1 & Hc1 & Hr1 & Hm1 & _).
    destruct (IH (turn U E st n)) as (e2 & Ht & Hv & Hl2 & Hc2 & Hr2 & Hm2).
    fold (turns U E ns (turn U E st n)). rewrite Ht, Hv, Hturn. cbn [trace visited].
    exists (e1 ++ e2)%list. rewrite <- !app_assoc.
    split; [reflexivity|]. split; [reflexivity|].
    split; [now rewrite existsb_app, Hl1, Hl2|].
    split; [intros Hin; apply in_app_or in Hin as [Hin|Hin]; auto|].
    split.
    + rewrite reads_app, length_app, Hr1, Hr2. cbn [filter].
      now destruct (isRenovate n).
    + intros m [<- | Hm] Hren; rewrite markCalls_app; apply in_or_app.
      * left. rewrite (Hm1 Hren). now left.
      * right. now apply Hm2.
Qed.

(** With nothing left on standard input every question is answered by the
    empty line, which is no yes. *)
Lemma turns_at_eof (ns : list NotificationPtr) :
  forall st, stdin st = "" ->
    stdin (turns U E ns st) = ""
    /\ markCalls (trace (turns U E ns st))
       = (markCalls (trace st) ++ map GetID (filter isRenovate ns))%list.
Proof.
  induction ns as [|n ns IH]; intros st Hin.
  - cbn. now rewrite app_nil_r.
  - cbn [turns fold_left]. fold (turns U E ns (turn U E st n)).
    destruct (turn_events st n) as (e1 & Hturn & _ & _ & _ & Hauto & Hmanual).
    rewrite Hin in Hturn, Hmanual. cbn [cutAfter fst snd] in Hturn, Hmanual.
    assert (Hst : stdin (turn U E st n) = "").
    { rewrite Hturn. cbn [stdin]. now destruct (isRenovate n). }
    destruct (IH _ Hst) as [Hs Hm]. split; [exact Hs|].
    rewrite Hm, Hturn. cbn [trace filter]. rewrite markCalls_app, <- app_assoc.
    f_equal. destruct (isRenovate n) eqn:Hren.
    + now rewrite (Hauto eq_refl).
    + rewrite (Hmanual eq_refl); [reflexivity|].
      unfold confirms. intros [H|H]; discriminate H.
Qed.

Lemma reviewLoop_turns (notifications : list NotificationPtr) (k : nat) :
  k <= List.length notifications ->
  forall st,
    reviewLoop U E k notifications st
    = (tt, turns U E (rev (firstn k notifications)) st).
Proof.
  induction k as [|i IH]; intros Hk st; [reflexivity|].
  cbn [reviewLoop]. unfold bind at 1.
  rewrite (firstn_succ (None : NotificationPtr)) by lia.
  rewrite rev_app_distr. cbn [rev app turns fold_left].
  fold (turns U E (rev (firstn i notifications)) (turn U E st (nth i notifications None))).
  unfold turn at 1.
  destruct (review U E (nth i notifications None) st) as [[] st'].
  cbn [snd]. apply IH. lia.
Qed.

End TurnFacts.

(** ** The four ways a run ends *)

Lemma setPage_fixedOpts (opts : NotificationListOptions) (page : Z) :
  fixedOpts (setPage opts page) = fixedOpts opts.
Proof. reflexivity. Qed.

Lemma Pagination_fixedQuery (E : Environment) k opts pages :
  Pagination E k opts pages ->
  fixedOpts opts = true ->
  forallb fixedQuery (map answered pages) = true.
Proof.
  induction 1 as [k opts ns Hres | k opts ns np rest Hres Hnp Hrest IH]; intros Hopts.
  - cbn. now rewrite Hopts.
  - cbn [map forallb]. rewrite IH by now rewrite setPage_fixedOpts.
    cbn. now rewrite Hopts.
Qed.

Lemma Failing_fixedQuery (E : Environment) k opts pages last err :
  Failing E k opts pages last err ->
  fixedOpts opts = true ->
  forallb fixedQuery
    (map answered pages ++ [ListCall "runatlantis" "atlantis" last (ListError err)]) = true.
Proof.
  induction 1 as [k opts err Hres | k opts ns np rest last err Hres Hnp Hrest IH];
    intros Hopts.
  - cbn. now rewrite Hopts.
  - cbn [map app forallb]. rewrite IH by now rewrite setPage_fixedOpts.
    cbn. now rewrite Hopts.
Qed.

Lemma isListCall_answered (pages : list Answer) :
  forallb isListCall (map answered pages) = true.
Proof. induction pages as [|p pages IH]; [reflexivity | exact IH]. Qed.

Section RunCases.
Variable U : UnicodeTables.
Variable P : Sort.Pdqsort.
Variable E : Environment.

(** What a run that fetched [all], not empty, leaves behind. *)
Lemma run_turns (fuel : nat) all st1 :
  GITHUB_TOKEN E <> "" ->
  fetchAllUnread E fuel (start E) = Some ((all, None), st1) ->
  all <> [] ->
  exists evs rest,
    run U P E fuel
    = Some (Returned,
            mkState rest (trace st1 ++ evs ++ [done])%list (rev (sortNotifications P all)))
    /\ trace (turns U E (rev (sortNotifications P all)) st1) = (trace st1 ++ evs)%list
    /\ stdin (turns U E (rev (sortNotifications P all)) st1) = rest.
Proof.
  intros Ht H Hall. unfold run, main. rewrite (token_given E Ht), H.
  assert (Hvis : visited st1 = []).
  { apply fetchLoop_success in H as (pages & _ & _ & ->). reflexivity. }
  destruct all as [|n all]; [contradiction|]. cbn [List.length Nat.eqb].
  rewrite sortNotifications_length. cbn [List.length Nat.eqb].
  set (sorted := sortNotifications P (n :: all)).
  assert (Hlen : List.length sorted = S (List.length all))
    by apply sortNotifications_length.
  rewrite <- Hlen. unfold bind.
  rewrite (reviewLoop_turns U E sorted (List.length sorted) (le_n _) st1).
  rewrite firstn_all.
  destruct (turns_events U E (rev sorted) st1) as (evs & Htr & Hv & _).
  exists evs, (stdin (turns U E (rev sorted) st1)).
  unfold Println, emit, done. cbn [fst snd stdin trace visited].
  rewrite Htr, Hv, Hvis. cbn [app]. rewrite <- app_assoc.
  repeat split.
Qed.

(** Every run that ends does so in one of four ways: without a token, on a
    failed list request, with nothing to review, or after the review. *)
Lemma run_cases (fuel : nat) (out : Outcome) (st : State) :
  run U P E fuel = Some (out, st) ->
  (GITHUB_TOKEN E = "" /\ out = Exited 1 /\
   st = mkState (Stdin E) [Log "GITHUB_TOKEN environment variable is required"] [])
  \/
  (GITHUB_TOKEN E <> "" /\ out = Exited 1 /\
   exists pages last err,
     Failing E 0 initialOpts pages last err /\
     st = mkState (Stdin E)
            ((map answered pages
                ++ [ListCall "runatlantis" "atlantis" last (ListError err)])
               ++ [Log ("error fetching notifications: " ++ err)])%list [])
  \/
  (GITHUB_TOKEN E <> "" /\ out = Returned /\
   exists pages,
     Pagination E 0 initialOpts pages /\
     concat (map items pages) = [] /\
     st = mkState (Stdin E)
            (map answered pages ++ [Stdout ("No unread notifications." ++ newline)])%list
            [])
  \/
  (GITHUB_TOKEN E <> "" /\ out = Returned /\
   exists pages evs,
     Pagination E 0 initialOpts pages /\
     concat (map items pages) <> [] /\
     trace (turns U E (rev (sortNotifications P (concat (map items pages))))
              (mkState (Stdin E) (map answered pages) []))
     = (map answered pages ++ evs)%list /\
     st = mkState
            (stdin (turns U E (rev (sortNotifications P (concat (map items pages))))
                      (mkState (Stdin E) (map answered pages) [])))
            (map answered pages ++ evs ++ [done])%list
            (rev (sortNotifications P (concat (map items pages))))).
Proof.
  intros Hrun.
  destruct (String.eqb (GITHUB_TOKEN E) "") eqn:Ht.
  { apply String.eqb_eq in Ht. rewrite (run_no_token U P E fuel Ht) in Hrun.
    injection Hrun as <- <-. left. repeat split. exact Ht. }
  apply String.eqb_neq in Ht. right.
  destruct (fetchAllUnread E fuel (start E)) as [[[ns [err|]] st1]|] eqn:Hfetch.
  - left. rewrite (run_fetch_error U P E fuel ns err st1 Ht Hfetch) in Hrun.
    injection Hrun as <- <-.
    apply fetchLoop_failure in Hfetch as (pages & last & Hfail & -> & ->).
    repeat split; [exact Ht|]. exists pages, last, err.
    split; [exact Hfail|]. cbn [stdin trace visited start].
    now rewrite app_assoc.
  - right. pose proof Hfetch as Hf.
    apply fetchLoop_success in Hf as (pages & Hp & Hns & Hst1).
    cbn [start trace stdin visited app List.length] in Hst1, Hp, Hns.
    destruct ns as [|n ns].
    + left. rewrite (run_nothing U P E fuel st1 Ht Hfetch) in Hrun.
      injection Hrun as <- <-. repeat split; [exact Ht|].
      exists pages. subst st1. repeat split; [exact Hp | now symmetry].
    + right.
      destruct (run_turns fuel (n :: ns) st1 Ht Hfetch ltac:(discriminate))
        as (evs & rest & Hr & Htr & Hrest).
      rewrite Hr in Hrun. injection Hrun as <- <-.
      repeat split; [exact Ht|]. exists pages, evs.
      rewrite <- Hns. subst st1. cbn [trace] in *.
      split; [exact Hp|]. split; [discriminate|]. split; [exact Htr|].
      now rewrite Hrest.
  - rewrite (run_out_of_fuel U P E fuel Ht Hfetch) in Hrun. discriminate.
Qed.

End RunCases.

(** ** What every run keeps to *)


Lemma isListCall_failedList (evs : list Event) :
  existsb isListCall evs = false -> existsb failedList evs = false.
Proof.
  induction evs as [|e evs IH]; [reflexivity|].
  cbn [existsb]. intros H. apply orb_false_iff in H as [He Hevs].
  rewrite (IH Hevs). destruct e; try reflexivity. discriminate He.
Qed.

Lemma celebration_answered (pages : list Answer) : ~ In celebration (map answered pages).
Proof.
  induction pages as [|p pages IH]; [intros []|].
  intros [H|H]; [discriminate H | now apply IH].
Qed.

(** The events the turns add carry no list request. *)
Lemma turns_added (U : UnicodeTables) (E : Environment)
      (ns : list NotificationPtr) (st : State) (evs : list Event) :
  trace (turns U E ns st) = (trace st ++ evs)%list ->
  existsb isListCall evs = false
  /\ ~ In celebration evs
  /\ List.length (reads evs) = List.length (filter (fun n => negb (isRenovate n)) ns)
  /\ (forall n, In n ns -> isRenovate n = true -> In (GetID n) (markCalls evs)).
Proof.
  intros Htr. destruct (turns_events U E ns st) as (evs' & Htr' & _ & H).
  rewrite Htr in Htr'. apply app_inv_head in Htr'. now subst evs'.
Qed.

(** X4: every list request of a run asks for the unread notifications of
    [runatlantis/atlantis], not restricted to participation, 100 to a page;
    with a token the first one asks for page 1.  The list requests come
    before everything else a run does: after the first other interaction
    there is no list request any more. *)
Theorem list_requests_fixed
        (U : UnicodeTables) (P : Sort.Pdqsort) (E : Environment)
        (fuel : nat) (out : Outcome) (st : State) :
  run U P E fuel = Some (out, st) ->
  exists calls others,
    trace st = (calls ++ others)%list /\
    forallb fixedQuery calls = true /\
    existsb isListCall others = false /\
    (GITHUB_TOKEN E <> "" ->
     exists res more,
       calls = ListCall "runatlantis" "atlantis" initialOpts res :: more).
Proof.
  intros Hrun.
  destruct (run_cases U P E fuel out st Hrun)
    as [(Ht & _ & ->) | [(Ht & _ & pages & last & err & Hf & ->)
       | [(Ht & _ & pages & Hp & _ & ->) | (Ht & _ & pages & evs & Hp & _ & Htr & ->)]]];
    cbn [trace].
  - exists [], [Log "GITHUB_TOKEN environment variable is required"].
    repeat split. intros Hn. contradiction.
  - eexists _, _. split; [reflexivity|].
    split; [exact (Failing_fixedQuery E _ _ _ _ _ Hf eq_refl)|]. split; [reflexivity|].
    intros _. inversion Hf; subst; eexists _, _; reflexivity.
  - eexists _, _. split; [reflexivity|].
    split; [exact (Pagination_fixedQuery E _ _ _ Hp eq_refl)|]. split; [reflexivity|].
    intros _. inversion Hp; subst; eexists _, _; reflexivity.
  - eexists _, _. split; [reflexivity|].
    split; [exact (Pagination_fixedQuery E _ _ _ Hp eq_refl)|].
    apply turns_added in Htr as (Hl & _).
    split; [rewrite existsb_app, Hl; reflexivity|].
    intros _. inversion Hp; subst; eexists _, _; reflexivity.
Qed.

Lemma list_requests_fixed_witness :
  exists out st calls others,
    run asciiTables Sort.insertionPdqsort twoUnread 1 = Some (out, st) /\
    trace st = (calls ++ others)%list /\
    forallb fixedQuery calls = true /\
    existsb isListCall others = false.
Proof.
  destruct (run asciiTables Sort.insertionPdqsort twoUnread 1) as [[out st]|] eqn:Hrun;
    [|discriminate Hrun].
  destruct (list_requests_fixed asciiTables Sort.insertionPdqsort twoUnread 1 out st Hrun)
    as (calls & others & Htr & Hq & Hl & _).
  exists out, st, calls, others. repeat split; assumption.
Defined.

(** X5: the message of the second emptiness check of [main] is never
    printed: sorting and reversing keep the length of the slice, so the
    check cannot succeed once the first one has failed. *)
Theorem second_empty_check_dead
        (U : UnicodeTables) (P : Sort.Pdqsort) (E : Environment)
        (fuel : nat) (out : Outcome) (st : State) :
  run U P E fuel = Some (out, st) ->
  ~ In celebration (trace st).
Proof.
  intros Hrun Hin.
  destruct (run_cases U P E fuel out st Hrun)
    as [(Ht & _ & ->) | [(Ht & _ & pages & last & err & Hf & ->)
       | [(Ht & _ & pages & Hp & _ & ->) | (Ht & _ & pages & evs & Hp & _ & Htr & ->)]]];
    cbn [trace] in Hin.
  - destruct Hin as [H|[]]. discriminate H.
  - repeat (apply in_app_or in Hin as [Hin|Hin]).
    + now apply celebration_answered in Hin.
    + destruct Hin as [H|[]]. discriminate H.
    + destruct Hin as [H|[]]. discriminate H.
  - apply in_app_or in Hin as [Hin|Hin].
    + now apply celebration_answered in Hin.
    + destruct Hin as [H|[]]. discriminate H.
  - apply turns_added in Htr as (_ & Hc & _).
    apply in_app_or in Hin as [Hin|Hin]; [now apply celebration_answered in Hin|].
    apply in_app_or in Hin as [Hin|Hin]; [now apply Hc|].
    destruct Hin as [H|[]]. discriminate H.
Qed.

Lemma second_empty_check_dead_witness :
  exists out st,
    run asciiTables Sort.insertionPdqsort twoUnread 1 = Some (out, st) /\
    ~ In celebration (trace st).
Proof.
  destruct (run asciiTables Sort.insertionPdqsort twoUnread 1) as [[out st]|] eqn:Hrun;
    [|discriminate Hrun].
  exists out, st. split; [reflexivity|].
  exact (second_empty_check_dead asciiTables Sort.insertionPdqsort twoUnread 1 out st Hrun).
Defined.

(** X6: the exit status tells a missing token or a failed list request and
    nothing else.  A run exits with status 1 exactly when the token is
    empty or a list request has failed; every other run returns normally,
    whatever the mark requests answered and whatever was typed. *)
Theorem exit_status
        (U : UnicodeTables) (P : Sort.Pdqsort) (E : Environment)
        (fuel : nat) (out : Outcome) (st : State) :
  run U P E fuel = Some (out, st) ->
  (out = Exited 1 <-> GITHUB_TOKEN E = "" \/ existsb failedList (trace st) = true) /\
  (out = Returned <-> GITHUB_TOKEN E <> "" /\ existsb failedList (trace st) = false).
Proof.
  intros Hrun.
  destruct (run_cases U P E fuel out st Hrun)
    as [(Ht & -> & ->) | [(Ht & -> & pages & last & err & Hf & ->)
       | [(Ht & -> & pages & Hp & _ & ->) | (Ht & -> & pages & evs & Hp & _ & Htr & ->)]]];
    cbn [trace].
  - split; split; try tauto; try discriminate; intuition discriminate.
  - assert (Hex : existsb failedList
                    ((map answered pages
                        ++ [ListCall "runatlantis" "atlantis" last (ListError err)])
                       ++ [Log ("error fetching notifications: " ++ err)]) = true).
    { rewrite !existsb_app. cbn. now rewrite orb_true_r. }
    rewrite Hex. split; split; try tauto; try discriminate; intuition discriminate.
  - assert (Hex : existsb failedList
                    (map answered pages
                       ++ [Stdout ("No unread notifications." ++ newline)]) = false).
    { now rewrite existsb_app, failedList_answered. }
    rewrite Hex. split; split; try tauto; try discriminate; intuition discriminate.
  - apply turns_added in Htr as (Hl & _).
    assert (Hex : existsb failedList (map answered pages ++ evs ++ [done]) = false).
    { rewrite !existsb_app, failedList_answered, (isListCall_failedList _ Hl). reflexivity. }
    rewrite Hex. split; split; try tauto; try discriminate; intuition discriminate.
Qed.

Lemma exit_status_witness :
  exists st,
    run asciiTables Sort.insertionPdqsort
      (scripted [ListOK [notification "1" "chore(deps): bump lodash" 1%Z] 0]
         (Some "503") "") 1
    = Some (Returned, st).
Proof.
  destruct (run asciiTables Sort.insertionPdqsort
              (scripted [ListOK [notification "1" "chore(deps): bump lodash" 1%Z] 0]
                 (Some "503") "") 1) as [[out st]|] eqn:Hrun; [|discriminate Hrun].
  exists st. f_equal. f_equal.
  apply (exit_status asciiTables Sort.insertionPdqsort _ 1 out st Hrun).
  split; [discriminate|].
  vm_compute in Hrun. injection Hrun as _ <-. reflexivity.
Defined.

(** ** Input and mark requests over a whole run *)

Section Accounting.
Variable U : UnicodeTables.
Variable P : Sort.Pdqsort.
Variable E : Environment.

(** The run after a fetch that succeeded, empty or not. *)
Lemma run_after_fetch (fuel : nat) all st1 :
  GITHUB_TOKEN E <> "" ->
  fetchAllUnread E fuel (start E) = Some ((all, None), st1) ->
  exists st2 evs pages,
    run U P E fuel = Some (Returned, st2) /\
    trace st1 = map answered pages /\
    stdin st1 = Stdin E /\
    Permutation all (visited st2) /\
    (all = [] -> visited st2 = [] /\
                 trace st2 = (trace st1
                                ++ [Stdout ("No unread notifications." ++ newline)])%list) /\
    (all <> [] ->
     trace (turns U E (visited st2) st1) = (trace st1 ++ evs)%list /\
     stdin (turns U E (visited st2) st1) = stdin st2 /\
     trace st2 = (trace st1 ++ evs ++ [done])%list).
Proof.
  intros Ht Hfetch. pose proof Hfetch as Hf.
  apply fetchLoop_success in Hf as (pages & _ & _ & Hst1).
  cbn [start trace stdin visited app] in Hst1.
  destruct all as [|n all].
  - rewrite (run_nothing U P E fuel st1 Ht Hfetch).
    eexists _, [], pages. split; [reflexivity|]. subst st1. cbn [trace stdin visited].
    split; [reflexivity|]. split; [reflexivity|]. split; [constructor|].
    split; [intros _; split; reflexivity|]. intros Hn. now contradiction Hn.
  - destruct (run_turns U P E fuel (n :: all) st1 Ht Hfetch ltac:(discriminate))
      as (evs & rest & Hr & Htr & Hrest).
    rewrite Hr. eexists _, evs, pages. split; [reflexivity|].
    cbn [trace stdin visited]. subst st1. cbn [trace stdin visited] in *.
    split; [reflexivity|]. split; [reflexivity|].
    split; [rewrite <- Permutation_rev; apply sortNotifications_perm|].
    split; [discriminate|]. intros _. repeat split; assumption.
Qed.

End Accounting.






(** X8: a fetched notification that the classifier approves is sent a mark
    request in every run, whatever is typed and whatever the earlier mark
    requests answered. *)
Theorem approved_always_marked
        (U : UnicodeTables) (P : Sort.Pdqsort) (E : Environment)
        (fuel : nat) (all : list NotificationPtr) (st1 : State) (n : NotificationPtr) :
  GITHUB_TOKEN E <> "" ->
  fetchAllUnread E fuel (start E) = Some ((all, None), st1) ->
  In n all ->
  isRenovate n = true ->
  exists st2,
    run U P E fuel = Some (Returned, st2) /\
    In (GetID n) (markCalls (trace st2)).
Proof.
  intros Ht Hfetch Hin Hren.
  destruct (run_after_fetch U P E fuel all st1 Ht Hfetch)
    as (st2 & evs & pages & Hrun & Hst1 & _ & Hperm & _ & Hcons).
  exists st2. split; [exact Hrun|].
  destruct (Hcons ltac:(intros ->; contradiction)) as (Htr & _ & ->).
  apply turns_added in Htr as (_ & _ & _ & Hmark).
  rewrite !markCalls_app. apply in_or_app. right. apply in_or_app. left.
  apply Hmark; [|exact Hren]. now apply (Permutation_in _ Hperm).
Qed.

Lemma approved_always_marked_witness :
  exists st2,
    run asciiTables Sort.insertionPdqsort
      (scripted [ListOK [notification "1" "chore(deps): bump lodash" 1%Z;
                         notification "2" "Add new feature" 2%Z] 0]
         (Some "503") "") 1
    = Some (Returned, st2) /\
    In "1" (markCalls (trace st2)).
Proof.
  refine (approved_always_marked asciiTables Sort.insertionPdqsort
            (scripted [ListOK [notification "1" "chore(deps): bump lodash" 1%Z;
                               notification "2" "Add new feature" 2%Z] 0]
               (Some "503") "") 1
            [notification "1" "chore(deps): bump lodash" 1%Z;
             notification "2" "Add new feature" 2%Z] _
            (notification "1" "chore(deps): bump lodash" 1%Z) _ _ _ _).
  - discriminate.
  - reflexivity.
  - now left.
  - reflexivity.
Defined.

(** X9: with nothing on standard input every question reads the empty
    line, which is no yes: the run marks the notifications that the
    classifier approves, in the order of the review, and no other. *)
Theorem end_of_input_marks_approved_only
        (U : UnicodeTables) (P : Sort.Pdqsort) (E : Environment)
        (fuel : nat) (all : list NotificationPtr) (st1 : State) :
  GITHUB_TOKEN E <> "" ->
  Stdin E = "" ->
  fetchAllUnread E fuel (start E) = Some ((all, None), st1) ->
  exists st2,
    run U P E fuel = Some (Returned, st2) /\
    Permutation all (visited st2) /\
    markCalls (trace st2) = map GetID (filter isRenovate (visited st2)).
Proof.
  intros Ht Hin Hfetch.
  destruct (run_after_fetch U P E fuel all st1 Ht Hfetch)
    as (st2 & evs & pages & Hrun & Hst1 & Hstdin & Hperm & Hnil & Hcons).
  exists st2. split; [exact Hrun|]. split; [exact Hperm|].
  destruct all as [|n all].
  - destruct (Hnil eq_refl) as [-> ->].
    now rewrite markCalls_app, Hst1, markCalls_answered.
  - destruct (Hcons ltac:(discriminate)) as (Htr & _ & Htr2).
    destruct (turns_at_eof U E (visited st2) st1 ltac:(now rewrite Hstdin)) as [_ Hm].
    rewrite Htr, markCalls_app, Hst1, markCalls_answered in Hm. cbn [app] in Hm.
    rewrite Htr2, !markCalls_app, Hst1, markCalls_answered, Hm. cbn [app].
    change (markCalls [done]) with (@nil string). now rewrite app_nil_r.
Qed.

Lemma end_of_input_marks_approved_only_witness :
  exists st2,
    run asciiTables Sort.insertionPdqsort
      (scripted [ListOK [notification "1" "chore(deps): bump lodash" 1%Z;
                         notification "2" "Add new feature" 2%Z;
                         notification "3" "fix(deps): patch z" 3%Z] 0]
         None "") 1
    = Some (Returned, st2) /\
    markCalls (trace st2) = ["3"; "1"].
Proof.
  destruct (end_of_input_marks_approved_only asciiTables Sort.insertionPdqsort
              (scripted [ListOK [notification "1" "chore(deps): bump lodash" 1%Z;
                                 notification "2" "Add new feature" 2%Z;
                                 notification "3" "fix(deps): patch z" 3%Z] 0]
                 None "") 1 _ _ ltac:(discriminate) eq_refl eq_refl)
    as (st2 & Hrun & _ & Hmark).
  exists st2. split; [exact Hrun|]. rewrite Hmark.
  vm_compute in Hrun. injection Hrun as <-. reflexivity.
Defined.

(** ** The order of the review does not depend on the order of the fetch *)

Lemma ascending_unique (a : list NotificationPtr) :
  forall b,
    StronglySorted notNewer a ->
    StronglySorted notNewer b ->
    Permutation a b ->
    NoDup (map GetUpdatedAt a) ->
    a = b.
Proof.
  induction a as [|x a IH]; intros b Ha Hb Hperm Hnd.
  - now apply Permutation_nil in Hperm.
  - destruct b as [|y b]; [now apply Permutation_sym, Permutation_nil in Hperm|].
    inversion Ha as [|? ? Ha' Hxa]; subst.
    inversion Hb as [|? ? Hb' Hyb]; subst.
    inversion Hnd as [|? ? Hnotin Hnd']; subst.
    rewrite Forall_forall in Hxa, Hyb.
    assert (Hxy : x = y).
    { assert (Hx : In x (y :: b)) by (apply (Permutation_in _ Hperm); now left).
      assert (Hy : In y (x :: a))
        by (apply (Permutation_in _ (Permutation_sym Hperm)); now left).
      destruct Hx as [Hx|Hx]; [now symmetry|].
      destruct Hy as [Hy|Hy]; [exact Hy|].
      exfalso. apply Hnotin.
      pose proof (Hxa y Hy) as H1. pose proof (Hyb x Hx) as H2.
      unfold notNewer in H1, H2.
      replace (GetUpdatedAt x) with (GetUpdatedAt y) by lia.
      now apply in_map. }
    subst y. f_equal. apply IH; auto.
    now apply Permutation_cons_inv in Hperm.
Qed.

(** X10: when no two fetched notifications were updated at the same
    instant, the sorted slice, and with it the order of the review, is fixed
    by the update times alone: it is the same for every order in which the
    server lists the notifications and for every sorting routine that keeps
    the contract of [sort.Slice]. *)
Theorem sort_independent_of_fetch_order
        (P P' : Sort.Pdqsort) (l l' : list NotificationPtr) :
  Permutation l l' ->
  NoDup (map GetUpdatedAt l) ->
  sortNotifications P l = sortNotifications P' l'.
Proof.
  intros Hperm Hnd. apply ascending_unique.
  - apply sortNotifications_StronglySorted.
  - apply sortNotifications_StronglySorted.
  - rewrite <- (sortNotifications_perm P l), <- (sortNotifications_perm P' l').
    exact Hperm.
  - apply (Permutation_NoDup (l := map GetUpdatedAt l)); [|exact Hnd].
    apply Permutation_map, sortNotifications_perm.
Qed.

Lemma sort_independent_of_fetch_order_witness :
  sortNotifications Sort.insertionPdqsort
    [notification "1" "a" 1%Z; notification "2" "b" 2%Z; notification "3" "c" 3%Z]
  = sortNotifications Sort.insertionPdqsort
      [notification "3" "c" 3%Z; notification "1" "a" 1%Z; notification "2" "b" 2%Z].
Proof.
  apply sort_independent_of_fetch_order.
  - apply Permutation_sym.
    exact (Permutation_cons_append
             [notification "1" "a" 1%Z; notification "2" "b" 2%Z]
             (notification "3" "c" 3%Z)).
  - cbn. repeat constructor; cbn; intuition discriminate.
Defined.

(** ** Case and white space in the answer *)

Lemma asciiSpace_plain (c : ascii) :
  asciiSpace c = true -> isASCIIByte c = true /\ isUpperByte c = false.
Proof.
  destruct c as [[] [] [] [] [] [] [] []]; cbn; intros H;
    try discriminate H; split; reflexivity.
Qed.

Lemma lowerByte_ascii (c : ascii) :
  isASCIIByte (lowerByte c) = true -> isASCIIByte c = true.
Proof.
  destruct c as [[] [] [] [] [] [] [] []]; cbn; intros H;
    try discriminate H; reflexivity.
Qed.

Lemma map_string_app (f : ascii -> ascii) (a b : string) :
  map_string f (a ++ b) = map_string f a ++ map_string f b.
Proof. induction a as [|c a IH]; cbn; [reflexivity | now rewrite IH]. Qed.

Lemma forallb_string_app (p : ascii -> bool) (a b : string) :
  forallb_string p (a ++ b) = forallb_string p a && forallb_string p b.
Proof. induction a as [|c a IH]; cbn; [reflexivity | now rewrite IH, andb_assoc]. Qed.

Lemma append_nil_r (a : string) : a ++ "" = a.
Proof. induction a as [|c a IH]; cbn; [reflexivity | now rewrite IH]. Qed.

Lemma rev_string_app (a b : string) :
  rev_string (a ++ b) = rev_string b ++ rev_string a.
Proof.
  induction a as [|c a IH]; cbn.
  - now rewrite append_nil_r.
  - now rewrite IH, append_assoc.
Qed.

Lemma rev_string_involutive (a : string) : rev_string (rev_string a) = a.
Proof.
  induction a as [|c a IH]; cbn; [reflexivity|].
  now rewrite rev_string_app, IH.
Qed.

Lemma blank_rev (a : string) : blank a = true -> blank (rev_string a) = true.
Proof.
  unfold blank. induction a as [|c a IH]; cbn; [reflexivity|].
  intros H. apply andb_true_iff in H as [Hc Ha].
  rewrite forallb_string_app, (IH Ha). cbn. now rewrite Hc.
Qed.

Lemma blank_lower (a : string) : blank a = true -> map_string lowerByte a = a.
Proof.
  unfold blank. induction a as [|c a IH]; cbn; [reflexivity|].
  intros H. apply andb_true_iff in H as [Hc Ha].
  rewrite (IH Ha). unfold lowerByte.
  now rewrite (proj2 (asciiSpace_plain c Hc)).
Qed.

Lemma blank_ascii (a : string) : blank a = true -> forallb_string isASCIIByte a = true.
Proof.
  unfold blank. induction a as [|c a IH]; cbn [forallb_string existsb_string map_string]; [reflexivity|].
  intros H. apply andb_true_iff in H as [Hc Ha].
  now rewrite (IH Ha), (proj1 (asciiSpace_plain c Hc)).
Qed.

Lemma lower_ascii (a : string) :
  forallb_string isASCIIByte (map_string lowerByte a) = true ->
  forallb_string isASCIIByte a = true.
Proof.
  induction a as [|c a IH]; cbn [forallb_string existsb_string map_string]; [reflexivity|].
  intros H. apply andb_true_iff in H as [Hc Ha].
  now rewrite (IH Ha), (lowerByte_ascii c Hc).
Qed.

Lemma no_upper_lower (a : string) :
  existsb_string isUpperByte a = false -> map_string lowerByte a = a.
Proof.
  induction a as [|c a IH]; cbn [forallb_string existsb_string map_string]; [reflexivity|].
  intros H. apply orb_false_iff in H as [Hc Ha].
  rewrite (IH Ha). unfold lowerByte. now rewrite Hc.
Qed.

Section AnswerFacts.
Variable U : UnicodeTables.

(** On ASCII input [strings.ToLower] lowers byte by byte. *)
Lemma ToLower_ascii (s : string) :
  forallb_string isASCIIByte s = true -> ToLower U s = map_string lowerByte s.
Proof.
  intros H. unfold ToLower. rewrite H.
  destruct (existsb_string isUpperByte s) eqn:Hup; cbn [negb]; [reflexivity|].
  symmetry. now apply no_upper_lower.
Qed.

Lemma TrimSpace_blank_left (l s : string) :
  blank l = true -> TrimSpace U (l ++ s) = TrimSpace U s.
Proof.
  unfold blank. induction l as [|c l IH]; cbn [append forallb_string]; [reflexivity|].
  intros H. apply andb_true_iff in H as [Hc Hl].
  cbn [TrimSpace]. rewrite (proj1 (asciiSpace_plain c Hc)), Hc. cbn [negb].
  now apply IH.
Qed.

Lemma TrimSpace_stop_blank (b t : string) :
  blank b = true -> TrimSpace_stop U (b ++ t) = TrimSpace_stop U t.
Proof.
  unfold blank. induction b as [|c b IH]; cbn [append forallb_string]; [reflexivity|].
  intros H. apply andb_true_iff in H as [Hc Hb].
  cbn [TrimSpace_stop]. rewrite (proj1 (asciiSpace_plain c Hc)), Hc. cbn [negb].
  now apply IH.
Qed.

(** A word that starts and ends with an ASCII byte that is no white space
    comes out of [strings.TrimSpace] as it is, whatever ASCII white space
    stands around it. *)
Lemma TrimSpace_word (l r : string) (c d : ascii) (w t : string) :
  blank l = true -> blank r = true ->
  isASCIIByte c = true -> asciiSpace c = false ->
  isASCIIByte d = true -> asciiSpace d = false ->
  rev_string (String c w) = String d t ->
  TrimSpace U (l ++ String c w ++ r) = String c w.
Proof.
  intros Hl Hr Hc Hcs Hd Hds Hrev.
  rewrite (TrimSpace_blank_left _ _ Hl).
  change (String c w ++ r) with (String c (w ++ r)).
  cbn [TrimSpace]. rewrite Hc, Hcs. cbn [negb].
  change (String c (w ++ r)) with (String c w ++ r).
  rewrite rev_string_app, (TrimSpace_stop_blank _ _ (blank_rev _ Hr)), Hrev.
  cbn [TrimSpace_stop]. rewrite Hd, Hds. cbn [negb].
  now rewrite <- Hrev, rev_string_involutive.
Qed.

End AnswerFacts.

(** X11: the answer is read without regard to the case of its letters and
    to the ASCII white space around it: [y] and [yes] in any mix of upper
    and lower case, with any run of spaces, tabs, carriage returns and line
    feeds before and after, are a yes. *)
Theorem answer_ignores_case_and_blanks (U : UnicodeTables) (l w r : string) :
  blank l = true ->
  blank r = true ->
  map_string lowerByte w = "y" \/ map_string lowerByte w = "yes" ->
  confirms U (l ++ w ++ r).
Proof.
  intros Hl Hr Hw.
  assert (Hascii : forallb_string isASCIIByte (l ++ w ++ r) = true).
  { rewrite !forallb_string_app, (blank_ascii _ Hl), (blank_ascii _ Hr).
    rewrite (lower_ascii w); [reflexivity|].
    destruct Hw as [-> | ->]; reflexivity. }
  unfold confirms, normalize.
  rewrite (ToLower_ascii U _ Hascii), !map_string_app.
  rewrite (blank_lower _ Hl), (blank_lower _ Hr).
  destruct Hw as [-> | ->]; [left | right].
  - apply (TrimSpace_word U l r "y" "y" "" ""); auto.
  - apply (TrimSpace_word U l r "y" "s" "es" "ey"); auto.
Qed.

Lemma answer_ignores_case_and_blanks_witness :
  confirms asciiTables
    (String (ascii_of_nat 9) " " ++ "YeS" ++ String (ascii_of_nat 13) newline).
Proof.
  apply (answer_ignores_case_and_blanks asciiTables
           (String (ascii_of_nat 9) " ") "YeS" (String (ascii_of_nat 13) newline));
    [reflexivity | reflexivity | right; reflexivity].
Defined.

(** ** Three segments *)

(** X12: a URL under the API root with exactly three segments is translated
    to the homepage of the repository whatever its third segment is, a
    recognized kind, another one or the empty one after a closing slash. *)
Theorem uiURL_three_segments (owner repo kind : string) :
  forallb segment [owner; repo; kind] = true ->
  uiURL (prefix ++ Join [owner; repo; kind] "/")
  = "https://github.com/" ++ owner ++ "/" ++ repo.
Proof.
  intros Hseg. rewrite uiURL_parts, (Split_Join _ _ Hseg).
  now destruct (recognized kind).
Qed.

Lemma uiURL_three_segments_witness :
  uiURL "https://api.github.com/repos/acme/widgets/"
  = "https://github.com/acme/widgets".
Proof.
  apply (uiURL_three_segments "acme" "widgets" ""). reflexivity.
Defined.

(** ** Ties in the order of the review *)

(** X13: when at most 12 notifications are fetched, those that were updated
    at the same instant are reviewed in the order in which the server listed
    them: the reversal after the sort and the backward loop undo each
    other. *)
Theorem review_keeps_fetch_order_of_ties
        (U : UnicodeTables) (P : Sort.Pdqsort) (E : Environment)
        (fuel : nat) (all : list NotificationPtr) (st1 : State) :
  GITHUB_TOKEN E <> "" ->
  fetchAllUnread E fuel (start E) = Some ((all, None), st1) ->
  List.length all <= 12 ->
  exists st2,
    run U P E fuel = Some (Returned, st2) /\
    KeepsTies all (visited st2).
Proof.
  intros Ht Hfetch Hlen. destruct all as [|n all].
  - rewrite (run_nothing U P E fuel st1 Ht Hfetch). eexists. split; [reflexivity|].
    apply fetchLoop_success in Hfetch as (pages & _ & _ & ->).
    cbn [visited start]. intros t. reflexivity.
  - destruct (run_turns U P E fuel (n :: all) st1 Ht Hfetch ltac:(discriminate))
      as (evs & rest & -> & _).
    eexists. split; [reflexivity|]. cbn [visited]. intros t.
    rewrite filter_rev, (sortNotifications_reverses_ties P _ Hlen t).
    apply rev_involutive.
Qed.

Lemma review_keeps_fetch_order_of_ties_witness :
  exists st2,
    run asciiTables Sort.insertionPdqsort
      (scripted [ListOK [notification "1" "a" 5%Z; notification "2" "b" 7%Z;
                         notification "3" "c" 5%Z] 0] None "") 1
    = Some (Returned, st2) /\
    filter (updatedAtIs 5%Z) (visited st2)
    = [notification "1" "a" 5%Z; notification "3" "c" 5%Z].
Proof.
  destruct (review_keeps_fetch_order_of_ties asciiTables Sort.insertionPdqsort
              (scripted [ListOK [notification "1" "a" 5%Z; notification "2" "b" 7%Z;
                                 notification "3" "c" 5%Z] 0] None "") 1
              [notification "1" "a" 5%Z; notification "2" "b" 7%Z;
               notification "3" "c" 5%Z] _ ltac:(discriminate) eq_refl
              ltac:(cbn; lia))
    as (st2 & Hrun & Hties).
  exists st2. split; [exact Hrun | exact (Hties 5%Z)].
Defined.

(** ** The server and the token *)

Lemma remoteCalls_answered_cons (p : Answer) (evs : list Event) :
  remoteCalls (answered p :: evs) <> [].
Proof. discriminate. Qed.

(** X14: a run that ends has sent a request to the server exactly when the
    token is not empty: without a token nothing is sent, with one the run
    sends at least the first list request. *)
Theorem server_contacted_iff_token
        (U : UnicodeTables) (P : Sort.Pdqsort) (E : Environment)
        (fuel : nat) (out : Outcome) (st : State) :
  run U P E fuel = Some (out, st) ->
  (remoteCalls (trace st) = [] <-> GITHUB_TOKEN E = "").
Proof.
  intros Hrun.
  destruct (run_cases U P E fuel out st Hrun)
    as [(Ht & _ & ->) | [(Ht & _ & pages & last & err & Hf & ->)
       | [(Ht & _ & pages & Hp & _ & ->) | (Ht & _ & pages & evs & Hp & _ & Htr & ->)]]];
    cbn [trace].
  - split; [intros _; exact Ht | reflexivity].
  - split; [|intros H; contradiction].
    intros H. exfalso. inversion Hf; subst; discriminate H.
  - split; [|intros H; contradiction].
    intros H. exfalso. inversion Hp; subst; discriminate H.
  - split; [|intros H; contradiction].
    intros H. exfalso. inversion Hp; subst; discriminate H.
Qed.

Lemma server_contacted_iff_token_witness :
  exists out st,
    run asciiTables Sort.insertionPdqsort
      {| GITHUB_TOKEN := "";
         ListRepositoryNotifications := fun _ _ _ _ => ListOK [] 0;
         MarkThreadRead := fun _ _ => None;
         Stdin := "y";
         Since := fun _ _ => "" |} 0
    = Some (out, st) /\
    remoteCalls (trace st) = [].
Proof.
  destruct (run asciiTables Sort.insertionPdqsort
              {| GITHUB_TOKEN := "";
                 ListRepositoryNotifications := fun _ _ _ _ => ListOK [] 0;
                 MarkThreadRead := fun _ _ => None;
                 Stdin := "y";
                 Since := fun _ _ => "" |} 0) as [[out st]|] eqn:Hrun;
    [|discriminate Hrun].
  exists out, st. split; [reflexivity|].
  apply (server_contacted_iff_token _ _ _ 0 out st Hrun). reflexivity.
Defined.

(** ** Standard input *)

Lemma cutAfter_app (delim : ascii) (s : string) :
  fst (cutAfter delim s) ++ snd (cutAfter delim s) = s.
Proof.
  induction s as [|c s IH]; [reflexivity|].
  cbn [cutAfter]. destruct (Ascii.eqb c delim); [reflexivity|].
  destruct (cutAfter delim s) as [text rest]. cbn [fst snd] in *.
  cbn. now rewrite IH.
Qed.

Lemma joined_app (a b : list string) : joined (a ++ b) = joined a ++ joined b.
Proof.
  induction a as [|x a IH]; [reflexivity|].
  cbn [app joined fold_right]. fold (joined (a ++ b)) (joined a).
  now rewrite IH, append_assoc.
Qed.

Lemma turns_input (U : UnicodeTables) (E : Environment) (ns : list NotificationPtr) :
  forall st,
    joined (reads (trace (turns U E ns st))) ++ stdin (turns U E ns st)
    = joined (reads (trace st)) ++ stdin st.
Proof.
  induction ns as [|n ns IH]; intros st; [reflexivity|].
  cbn [turns fold_left]. fold (turns U E ns (turn U E st n)).
  rewrite IH.
  destruct (turn_events U E st n) as (evs & -> & _ & _ & Hreads & _).
  cbn [trace stdin]. rewrite reads_app, joined_app, Hreads, append_assoc.
  destruct (isRenovate n); [reflexivity|].
  cbn [joined fold_right]. now rewrite append_nil_r, cutAfter_app.
Qed.

(** X15: standard input is taken in order and nothing of it is lost: in
    every run that ends, the lines that were read, one after the other,
    followed by what is still unread, are the input the run started
    with. *)
Theorem input_conserved
        (U : UnicodeTables) (P : Sort.Pdqsort) (E : Environment)
        (fuel : nat) (out : Outcome) (st : State) :
  run U P E fuel = Some (out, st) ->
  joined (reads (trace st)) ++ stdin st = Stdin E.
Proof.
  intros Hrun.
  destruct (run_cases U P E fuel out st Hrun)
    as [(Ht & _ & ->) | [(Ht & _ & pages & last & err & Hf & ->)
       | [(Ht & _ & pages & Hp & _ & ->) | (Ht & _ & pages & evs & Hp & _ & Htr & ->)]]];
    cbn [trace stdin].
  - reflexivity.
  - now rewrite !reads_app, reads_answered.
  - now rewrite !reads_app, reads_answered.
  - pose proof (turns_input U E
                  (rev (sortNotifications P (concat (map items pages))))
                  (mkState (Stdin E) (map answered pages) [])) as Hin.
    rewrite Htr in Hin. cbn [trace stdin] in Hin.
    rewrite !reads_app, reads_answered in Hin. cbn [app] in Hin.
    rewrite !reads_app, reads_answered. cbn [app].
    change (reads [done]) with (@nil string). rewrite app_nil_r.
    exact Hin.
Qed.

Lemma input_conserved_witness :
  exists out st,
    run asciiTables Sort.insertionPdqsort
      (scripted [ListOK [notification "1" "a" 1%Z; notification "2" "b" 2%Z] 0]
         None ("y" ++ newline ++ "no" ++ newline ++ "left over")) 1
    = Some (out, st) /\
    joined (reads (trace st)) ++ stdin st
    = "y" ++ newline ++ "no" ++ newline ++ "left over".
Proof.
  destruct (run asciiTables Sort.insertionPdqsort
              (scripted [ListOK [notification "1" "a" 1%Z; notification "2" "b" 2%Z] 0]
                 None ("y" ++ newline ++ "no" ++ newline ++ "left over")) 1)
    as [[out st]|] eqn:Hrun; [|discriminate Hrun].
  exists out, st. split; [reflexivity|].
  exact (input_conserved asciiTables Sort.insertionPdqsort _ 1 out st Hrun).
Defined.
